(** * rheas-io/cookies: the Cookie value object and the CookiesManager

    A shallow embedding of [src/cookie.ts] and [src/cookiesManager.ts].

    - JavaScript strings are sequences of UTF-16 code units ([jsstring]);
      the built-ins the two classes call ([split], [shift], [trimLeft],
      [encodeURIComponent], [decodeURIComponent], string concatenation of a
      number) are written out from ECMA-262.
    - Methods of a class are state transformers over the instance that can
      end in an exception ([M]): the state after a [Throw] is the state the
      caller observes.
    - The two [KeyValue<ICookie>] objects of the manager are plain objects:
      their own properties hold cookies ([Cookie] is the only implementation
      of [ICookie] in the repository), and a read [o[name]] that finds no own
      property goes on to the prototype, so it can give a member of
      [Object.prototype]; a write to [__proto__] replaces the prototype.
    - [dayjs], [Redate] and the clock live outside the repository: they are
      the fields of the class [Dayjs], and the reading of [Date.now()] is an
      argument of the methods that consult it. *)

From Stdlib Require Import ZArith Lia List Bool Ascii String DecimalString.
From stdpp Require Import base option list gmap.
From Equations Require Import Equations.

Local Open Scope Z_scope.

(** ** Outcomes: normal completion or a thrown exception *)

Inductive exception : Type :=
  | URIError
  | InvalidArgumentException.

Inductive outcome (A : Type) : Type :=
  | Return (a : A)
  | Throw (e : exception).
Arguments Return {A} a.
Arguments Throw {A} e.

Definition obind {A B} (o : outcome A) (k : A -> outcome B) : outcome B :=
  match o with
  | Return a => k a
  | Throw e => Throw e
  end.

Definition returns {A} (o : outcome A) : bool :=
  match o with Return _ => true | Throw _ => false end.

(** ** JavaScript strings and the built-ins used by the repository *)

Module JS.

(** A string is a list of UTF-16 code units, each in [0, 0xFFFF]. *)
Abbreviation jsstring := (list Z).

Definition code_unit (c : Z) : Prop := 0 <= c < 65536.
Definition wf_string (s : jsstring) : Prop := Forall code_unit s.

(** String literals of the source, written as Rocq strings. *)
Definition lit (s : string) : jsstring :=
  map (fun a => Z.of_N (N_of_ascii a)) (list_ascii_of_string s).

(** [s.split(sep)] for a one-character separator: every occurrence of the
    separator cuts; the result always has at least one piece. *)
Fixpoint split (sep : Z) (s : jsstring) : list jsstring :=
  match s with
  | [] => [[]]
  | c :: s' =>
      if c =? sep then [] :: split sep s'
      else match split sep s' with
           | piece :: pieces => (c :: piece) :: pieces
           | [] => [[c]]
           end
  end.

(** [a.shift()]: removes and returns the first element, [undefined] ([None])
    on an empty array; the second component is the array afterwards. *)
Definition shift {A} (a : list A) : option A * list A :=
  match a with
  | [] => (None, [])
  | x :: a' => (Some x, a')
  end.

(** [x || ''] for [x] a string or [undefined]: the empty string and
    [undefined] are falsy. *)
Definition or_empty (x : option jsstring) : jsstring :=
  match x with
  | Some (c :: s) => c :: s
  | _ => []
  end.

(** ECMA-262 WhiteSpace and LineTerminator code units, as stripped by
    [trimLeft] (an alias of [trimStart]). *)
Definition is_whitespace (c : Z) : bool :=
  (c =? 9) || (c =? 10) || (c =? 11) || (c =? 12) || (c =? 13) || (c =? 32)
  || (c =? 160) || (c =? 5760) || ((8192 <=? c) && (c <=? 8202))
  || (c =? 8232) || (c =? 8233) || (c =? 8239) || (c =? 8287)
  || (c =? 12288) || (c =? 65279).

Fixpoint trimLeft (s : jsstring) : jsstring :=
  match s with
  | [] => []
  | c :: s' => if is_whitespace c then trimLeft s' else s
  end.

(** *** Percent-encoding: [encodeURIComponent] *)

(** The unreserved set of [encodeURIComponent]: letters, decimal digits and
    [- _ . ! ~ * ' ( )]. *)
Definition is_unreserved (c : Z) : bool :=
  ((65 <=? c) && (c <=? 90)) || ((97 <=? c) && (c <=? 122))
  || ((48 <=? c) && (c <=? 57))
  || (c =? 45) || (c =? 95) || (c =? 46) || (c =? 33) || (c =? 126)
  || (c =? 42) || (c =? 39) || (c =? 40) || (c =? 41).

Definition is_high_surrogate (c : Z) : bool := (55296 <=? c) && (c <=? 56319).
Definition is_low_surrogate (c : Z) : bool := (56320 <=? c) && (c <=? 57343).

(** The UTF-8 transformation of a code point. *)
Definition utf8_encode (v : Z) : list Z :=
  if v <? 128 then [v]
  else if v <? 2048 then [192 + v / 64; 128 + v mod 64]
  else if v <? 65536 then
    [224 + v / 4096; 128 + (v / 64) mod 64; 128 + v mod 64]
  else [240 + v / 262144; 128 + (v / 4096) mod 64;
        128 + (v / 64) mod 64; 128 + v mod 64].

(** An uppercase hexadecimal digit. *)
Definition hex_digit (d : Z) : Z := if d <? 10 then 48 + d else 55 + d.

(** ["%XY"] for one octet. *)
Definition percent (b : Z) : jsstring :=
  [37; hex_digit (b / 16); hex_digit (b mod 16)].

Definition percent_all (octets : list Z) : jsstring :=
  concat (map percent octets).

(** ECMA-262 Encode with the unreserved set of [encodeURIComponent]. A lone
    surrogate throws a URIError. *)
Fixpoint encodeURIComponent (s : jsstring) : outcome jsstring :=
  match s with
  | [] => Return []
  | c :: rest =>
      if is_unreserved c then
        obind (encodeURIComponent rest) (fun r => Return (c :: r))
      else if is_low_surrogate c then Throw URIError
      else if negb (is_high_surrogate c) then
        obind (encodeURIComponent rest)
              (fun r => Return (percent_all (utf8_encode c) ++ r))
      else
        match rest with
        | [] => Throw URIError
        | k :: rest' =>
            if is_low_surrogate k then
              let v := (c - 55296) * 1024 + (k - 56320) + 65536 in
              obind (encodeURIComponent rest')
                    (fun r => Return (percent_all (utf8_encode v) ++ r))
            else Throw URIError
        end
  end.

(** *** Percent-decoding: [decodeURIComponent] *)

Definition hex_value (c : Z) : option Z :=
  if (48 <=? c) && (c <=? 57) then Some (c - 48)
  else if (65 <=? c) && (c <=? 70) then Some (c - 55)
  else if (97 <=? c) && (c <=? 102) then Some (c - 87)
  else None.

(** The octet of a ["%XY"] escape at the head of [s], with what follows. *)
Definition escape (s : jsstring) : option (Z * jsstring) :=
  match s with
  | p :: h :: l :: rest =>
      if p =? 37 then
        match hex_value h, hex_value l with
        | Some a, Some b => Some (16 * a + b, rest)
        | _, _ => None
        end
      else None
  | _ => None
  end.

(** A continuation octet [10xxxxxx] of a multi-octet sequence: its six
    payload bits. *)
Definition continuation (s : jsstring) : option (Z * jsstring) :=
  match escape s with
  | Some (b, rest) =>
      if (128 <=? b) && (b <? 192) then Some (b - 128, rest) else None
  | None => None
  end.

(** One turn of the loop of ECMA-262 Decode (with the empty reserved set of
    [decodeURIComponent]) on the non-empty string [c :: rest]: the code units
    it appends to the result and how many code units of [rest] it consumed.
    Truncated or non-hexadecimal escapes, stray continuation octets, overlong
    forms, encoded surrogates and values above 0x10FFFF throw. *)
Definition decode_char (c : Z) (rest : jsstring)
  : outcome (jsstring * nat) :=
  if negb (c =? 37) then Return ([c], 0%nat)
  else
    match escape (c :: rest) with
    | None => Throw URIError
    | Some (b, r1) =>
        if b <? 128 then Return ([b], 2%nat)
        else if b <? 192 then Throw URIError
        else if b <? 224 then
          match continuation r1 with
          | Some (b1, _) =>
              let v := (b - 192) * 64 + b1 in
              if v <? 128 then Throw URIError else Return ([v], 5%nat)
          | None => Throw URIError
          end
        else if b <? 240 then
          match continuation r1 with
          | Some (b1, r2) =>
              match continuation r2 with
              | Some (b2, _) =>
                  let v := (b - 224) * 4096 + b1 * 64 + b2 in
                  if (v <? 2048) || ((55296 <=? v) && (v <=? 57343))
                  then Throw URIError
                  else Return ([v], 8%nat)
              | None => Throw URIError
              end
          | None => Throw URIError
          end
        else if b <? 248 then
          match continuation r1 with
          | Some (b1, r2) =>
              match continuation r2 with
              | Some (b2, r3) =>
                  match continuation r3 with
                  | Some (b3, _) =>
                      let v := (b - 240) * 262144 + b1 * 4096 + b2 * 64 + b3 in
                      if (v <? 65536) || (1114111 <? v) then Throw URIError
                      else Return ([55296 + (v - 65536) / 1024;
                                    56320 + (v - 65536) mod 1024], 11%nat)
                  | None => Throw URIError
                  end
              | None => Throw URIError
              end
          | None => Throw URIError
          end
        else Throw URIError
    end.

Equations? decodeURIComponent (s : jsstring) : outcome jsstring
  by wf (length s) lt :=
  decodeURIComponent [] := Return [];
  decodeURIComponent (c :: rest) with decode_char c rest := {
    | Throw e => Throw e
    | Return (units, n) with decodeURIComponent (drop n rest) := {
        | Throw e => Throw e
        | Return r => Return (units ++ r) } }.
Proof.
  rewrite length_drop. simpl. lia.
Qed.

(** *** Numbers *)

(** The numbers the program computes with are timestamps in milliseconds
    and counts of seconds, which [dayjs] yields as whole numbers, and [NaN],
    which it yields for an invalid date. (A caller may also hand [setExpire]
    a fractional or an infinite number; those are not values of this
    type.) *)
Inductive number : Type :=
  | Int (z : Z)
  | NaN.

(** [x === 0] *)
Definition is_zero (x : number) : bool :=
  match x with Int z => z =? 0 | NaN => false end.

(** [x > 0] *)
Definition is_positive (x : number) : bool :=
  match x with Int z => 0 <? z | NaN => false end.

(** The string a number contributes to a concatenation: its decimal digits
    (exact below 10^21, which bounds every difference of two dates). *)
Definition number_to_string (x : number) : jsstring :=
  match x with
  | Int z => lit (NilZero.string_of_int (Z.to_int z))
  | NaN => lit "NaN"
  end.

(** [s] is truthy: a non-empty string. *)
Definition truthy (s : jsstring) : bool :=
  match s with [] => false | _ :: _ => true end.

(** [s === ''] *)
Definition is_empty (s : jsstring) : bool := negb (truthy s).

(** *** Text measures used to state properties of the strings *)

(** The UTF-16 form of a code point, and the code points that have one. *)
Definition utf16_encode (v : Z) : jsstring :=
  if v <? 65536 then [v]
  else [55296 + (v - 65536) / 1024; 56320 + (v - 65536) mod 1024].

Definition scalar (v : Z) : Prop := 0 <= v < 55296 \/ 57344 <= v < 1114112.

(** The code units [encodeURIComponent] can produce. *)
Definition uri_char (c : Z) : bool := is_unreserved c || (c =? 37).

(** What is before the first [sep] of a string, and what is after it. *)
Fixpoint before (sep : Z) (s : jsstring) : jsstring :=
  match s with
  | [] => []
  | c :: s' => if c =? sep then [] else c :: before sep s'
  end.

Fixpoint after (sep : Z) (s : jsstring) : jsstring :=
  match s with
  | [] => []
  | c :: s' => if c =? sep then s' else after sep s'
  end.

Fixpoint is_prefix (p s : jsstring) : bool :=
  match p, s with
  | [], _ => true
  | a :: p', b :: s' => (a =? b) && is_prefix p' s'
  | _ :: _, [] => false
  end.

(** The number of positions of [s] at which [p] occurs. *)
Fixpoint occurrences (p s : jsstring) : nat :=
  ((if is_prefix p s then 1 else 0)
   + match s with
     | [] => 0
     | _ :: s' => occurrences p s'
     end)%nat.

(** [p] and [k] differ at a position both have. *)
Fixpoint diverges (p k : jsstring) : bool :=
  match p, k with
  | a :: p', b :: k' => negb (a =? b) || diverges p' k'
  | _, _ => false
  end.

Definition semicolon_free (s : jsstring) : Prop := Forall (fun c => c <> 59) s.

Definition opens_with_semicolon (p : jsstring) : bool :=
  match p with
  | c :: _ => c =? 59
  | [] => false
  end.

End JS.

Import JS.

(** ** State and exceptions *)

(** A method body: from the state of [this] to an outcome and the state
    afterwards. *)
Definition M (S A : Type) : Type := S -> outcome A * S.

Definition ret {S A} (a : A) : M S A := fun s => (Return a, s).
Definition throw {S A} (e : exception) : M S A := fun s => (Throw e, s).
Definition bind {S A B} (m : M S A) (k : A -> M S B) : M S B :=
  fun s => match m s with
           | (Return a, s') => k a s'
           | (Throw e, s') => (Throw e, s')
           end.
Definition read {S A} (f : S -> A) : M S A := fun s => (Return (f s), s).
Definition modify {S} (f : S -> S) : M S unit := fun s => (Return tt, f s).
Definition lift {S A} (o : outcome A) : M S A := fun s => (o, s).

Notation "x <~ m ;; k" := (bind m (fun x => k))
  (at level 90, m at level 80, right associativity).
Notation "m ;;; k" := (bind m (fun _ => k))
  (at level 90, right associativity).

(** [a.forEach(f)] with a callback that may throw: the first exception ends
    the iteration and keeps the effects so far. *)
Fixpoint forEach {S A} (f : A -> M S unit) (a : list A) : M S unit :=
  match a with
  | [] => ret tt
  | x :: a' => f x ;;; forEach f a'
  end.

(** ** Collaborators outside the repository *)

(** Modelled from the spec: the enumeration [SameSite] of
    [@rheas/contracts/cookies/sameSite], which is not in the repository: three
    states, whose string forms are the attribute values of the wire format
    ([samesite=strict] for [STRICT]). *)
Inductive SameSite : Type :=
  | NONE
  | LAX
  | STRICT.

Definition SameSite_valueOf (s : SameSite) : jsstring :=
  match s with
  | NONE => lit "none"
  | LAX => lit "lax"
  | STRICT => lit "strict"
  end.

Definition SameSite_eqb (a b : SameSite) : bool :=
  match a, b with
  | NONE, NONE | LAX, LAX | STRICT, STRICT => true
  | _, _ => false
  end.

(** What the cookie asks of [dayjs] and [Redate] (packages [dayjs] and
    [@rheas/support]): validity of a timestamp, calendar shifts by years,
    whole seconds between two instants, and the HTTP-date of a timestamp. *)
Class Dayjs : Type := {
  (** [dayjs(t).isValid()] *)
  dayjs_isValid : number -> bool;
  (** [dayjs(t).subtract(n, 'year').valueOf()] *)
  dayjs_subtract_years : Z -> number -> number;
  (** [dayjs(t).add(n, 'year').valueOf()] *)
  dayjs_add_years : Z -> number -> number;
  (** [dayjs(a).diff(dayjs(b), 'second')] *)
  dayjs_diff_seconds : number -> number -> number;
  (** [Redate.responseFormat(t)] *)
  Redate_responseFormat : number -> jsstring
}.

(** ** src/cookie.ts *)

Record Cookie : Type := mkCookie {
  _name : jsstring;
  _value : jsstring;
  _expiresAt : number;
  _path : jsstring;
  _domain : jsstring;
  _secure : bool;
  _httpOnly : bool;
  _raw : bool;
  _sameSite : SameSite
}.

(** [new Cookie(name, value, expiresAt, path, domain, secure, httpOnly, raw,
    sameSite)] assigns the nine fields: it is [mkCookie]. With two arguments
    the rest take their defaults. *)
Definition new_Cookie (name value : jsstring) : Cookie :=
  mkCookie name value (Int 0) (lit "/") (lit "") false false true NONE.

Definition with_value (v : jsstring) (c : Cookie) : Cookie :=
  mkCookie (_name c) v (_expiresAt c) (_path c) (_domain c) (_secure c)
           (_httpOnly c) (_raw c) (_sameSite c).

Definition with_expiresAt (t : number) (c : Cookie) : Cookie :=
  mkCookie (_name c) (_value c) t (_path c) (_domain c) (_secure c)
           (_httpOnly c) (_raw c) (_sameSite c).

Definition with_path (p : jsstring) (c : Cookie) : Cookie :=
  mkCookie (_name c) (_value c) (_expiresAt c) p (_domain c) (_secure c)
           (_httpOnly c) (_raw c) (_sameSite c).

Definition with_domain (d : jsstring) (c : Cookie) : Cookie :=
  mkCookie (_name c) (_value c) (_expiresAt c) (_path c) d (_secure c)
           (_httpOnly c) (_raw c) (_sameSite c).

Definition with_secure (b : bool) (c : Cookie) : Cookie :=
  mkCookie (_name c) (_value c) (_expiresAt c) (_path c) (_domain c) b
           (_httpOnly c) (_raw c) (_sameSite c).

Definition with_httpOnly (b : bool) (c : Cookie) : Cookie :=
  mkCookie (_name c) (_value c) (_expiresAt c) (_path c) (_domain c)
           (_secure c) b (_raw c) (_sameSite c).

Definition with_raw (b : bool) (c : Cookie) : Cookie :=
  mkCookie (_name c) (_value c) (_expiresAt c) (_path c) (_domain c)
           (_secure c) (_httpOnly c) b (_sameSite c).

Definition with_sameSite (s : SameSite) (c : Cookie) : Cookie :=
  mkCookie (_name c) (_value c) (_expiresAt c) (_path c) (_domain c)
           (_secure c) (_httpOnly c) (_raw c) s.

Section CookieMethods.
Context {D : Dayjs}.

Definition setValue (value : jsstring) : M Cookie unit :=
  modify (with_value value).

Definition setExpire (timestamp : number) : M Cookie unit :=
  if negb (is_zero timestamp) && negb (dayjs_isValid timestamp)
  then throw InvalidArgumentException
  else modify (with_expiresAt timestamp).

(** [now] is the reading of [Date.now()]. *)
Definition expire (now : Z) : M Cookie unit :=
  let pastTime := dayjs_subtract_years 13 (Int now) in
  setExpire pastTime.

Definition forever (now : Z) : M Cookie unit :=
  let futureTime := dayjs_add_years 13 (Int now) in
  setExpire futureTime.

Definition setPath (path : jsstring) : M Cookie unit :=
  modify (with_path path).
Definition setDomain (domain : jsstring) : M Cookie unit :=
  modify (with_domain domain).
Definition setSecure (secure : bool) : M Cookie unit :=
  modify (with_secure secure).
Definition setHttpOnly (httpOnly : bool) : M Cookie unit :=
  modify (with_httpOnly httpOnly).
Definition setRaw (raw : bool) : M Cookie unit :=
  modify (with_raw raw).
Definition setSameSite (sameSite : SameSite) : M Cookie unit :=
  modify (with_sameSite sameSite).

Definition getName : M Cookie jsstring := read _name.
Definition getValue : M Cookie jsstring := read _value.
Definition getExpiry : M Cookie number := read _expiresAt.
Definition getPath : M Cookie jsstring := read _path.
Definition getDomain : M Cookie jsstring := read _domain.
Definition isSecure : M Cookie bool := read _secure.
Definition isHttpOnly : M Cookie bool := read _httpOnly.
Definition isRaw : M Cookie bool := read _raw.
Definition getSameSite : M Cookie SameSite := read _sameSite.

(** [dayjs()] inside is the current instant, [now]. *)
Definition getMaxAge (now : Z) : M Cookie number :=
  e <~ getExpiry ;;
  if is_zero e then ret (Int 0)
  else
    e <~ getExpiry ;;
    let secondsFromNow := dayjs_diff_seconds e (Int now) in
    ret (if is_positive secondsFromNow then secondsFromNow else Int 0).

Definition hasExpired (now : Z) : M Cookie bool :=
  a <~ getMaxAge now ;; ret (is_zero a).

Definition rawIfNeededOf (value : jsstring) : M Cookie jsstring :=
  r <~ isRaw ;;
  if r then ret value else lift (encodeURIComponent value).

(** [toString()], statement by statement; [cookie] is the local variable. *)
Definition toString (now : Z) : M Cookie jsstring :=
  n <~ getName ;;
  n' <~ rawIfNeededOf n ;;
  let cookie := n' ++ lit "=" in
  v <~ getValue ;;
  cookie <~ (if is_empty v then
               expire now ;;;
               e <~ getExpiry ;;
               ret (cookie ++ (lit "; expires=" ++ Redate_responseFormat e)
                           ++ lit "; Max-Age=0")
             else
               v <~ getValue ;;
               v' <~ rawIfNeededOf v ;;
               let cookie := cookie ++ v' in
               e <~ getExpiry ;;
               cookie <~ (if negb (is_zero e) then
                            e <~ getExpiry ;;
                            ret (cookie ++ (lit "; expires="
                                            ++ Redate_responseFormat e))
                          else ret cookie) ;;
               a <~ getMaxAge now ;;
               ret (cookie ++ (lit "; Max-Age=" ++ number_to_string a))) ;;
  p <~ getPath ;;
  cookie <~ (if truthy p then
               p <~ getPath ;; ret (cookie ++ (lit "; path=" ++ p))
             else ret cookie) ;;
  d <~ getDomain ;;
  cookie <~ (if truthy d then
               d <~ getDomain ;; ret (cookie ++ (lit "; domain=" ++ d))
             else ret cookie) ;;
  s <~ isSecure ;;
  let cookie := if s then cookie ++ lit "; secure" else cookie in
  h <~ isHttpOnly ;;
  let cookie := if h then cookie ++ lit "; httponly" else cookie in
  ss <~ getSameSite ;;
  cookie <~ (if negb (SameSite_eqb NONE ss) then
               ss <~ getSameSite ;;
               ret (cookie ++ (lit "; samesite=" ++ SameSite_valueOf ss))
             else ret cookie) ;;
  ret cookie.

End CookieMethods.

(** ** src/cookiesManager.ts *)

(** *** Plain objects used as dictionaries *)

(** [_incoming] and [_queue] start as [{}] and are read and written with
    [o[name]]. The only values the manager assigns are cookies, so such an
    object is its own properties, which hold cookies, and its prototype:
    [Object.prototype] to begin with ([None]), or the cookie that an
    assignment to [__proto__] has put in its place. *)
Record KeyValue : Type := mkObject {
  own : gmap (list Z) Cookie;
  prototype : option Cookie
}.

(** [{}] *)
Definition empty_object : KeyValue := mkObject ∅ None.

(** The two prototype objects in which a read can find a method. *)
Inductive home : Type :=
  | Object_prototype
  | Cookie_prototype.

(** The values a read of a property can give: an instance of [Cookie], a
    primitive held by a field of a cookie, the object [Object.prototype],
    or a function that is a member of one of the two prototype objects. *)
Inductive jsvalue : Type :=
  | Null
  | Undefined
  | Instance (c : Cookie)
  | Text (s : jsstring)
  | Num (n : number)
  | Boolean (b : bool)
  | The_Object_prototype
  | Method (h : home) (name : jsstring).

(** The function-valued properties of [Object.prototype] (ECMA-262, with
    the legacy accessors helpers of Annex B), and those of
    [Cookie.prototype]: the constructor and the methods of the class. *)
Definition Object_prototype_names : list jsstring :=
  map lit ["constructor"; "__defineGetter__"; "__defineSetter__";
           "hasOwnProperty"; "__lookupGetter__"; "__lookupSetter__";
           "isPrototypeOf"; "propertyIsEnumerable"; "toString"; "valueOf";
           "toLocaleString"]%string.

Definition Cookie_prototype_names : list jsstring :=
  map lit ["constructor"; "setValue"; "setExpire"; "expire"; "forever";
           "setPath"; "setDomain"; "setSecure"; "setHttpOnly"; "setRaw";
           "setSameSite"; "getName"; "getValue"; "getExpiry"; "getMaxAge";
           "hasExpired"; "getPath"; "getDomain"; "isSecure"; "isHttpOnly";
           "isRaw"; "getSameSite"; "toString"; "rawIfNeededOf"]%string.

(** The own properties of an instance of [Cookie] are its nine fields
    ([protected] is a matter of the type checker only). The value of
    [_sameSite] is the string form of the enumeration, as modelled from the
    spec. *)
Definition field (c : Cookie) (k : jsstring) : option jsvalue :=
  if decide (k = lit "_name") then Some (Text (_name c))
  else if decide (k = lit "_value") then Some (Text (_value c))
  else if decide (k = lit "_expiresAt") then Some (Num (_expiresAt c))
  else if decide (k = lit "_path") then Some (Text (_path c))
  else if decide (k = lit "_domain") then Some (Text (_domain c))
  else if decide (k = lit "_secure") then Some (Boolean (_secure c))
  else if decide (k = lit "_httpOnly") then Some (Boolean (_httpOnly c))
  else if decide (k = lit "_raw") then Some (Boolean (_raw c))
  else if decide (k = lit "_sameSite")
       then Some (Text (SameSite_valueOf (_sameSite c)))
  else None.

(** What a read finds along the prototype chain when the object has no own
    property [k]. [__proto__] is an accessor of [Object.prototype], at the
    end of every chain: its getter returns the prototype of the object that
    is read. A prototype that is a cookie is searched before
    [Cookie.prototype], and that before [Object.prototype]. *)
Definition inherited (o : KeyValue) (k : jsstring) : jsvalue :=
  if decide (k = lit "__proto__") then
    match prototype o with
    | Some c => Instance c
    | None => The_Object_prototype
    end
  else
    match prototype o with
    | Some c =>
        match field c k with
        | Some v => v
        | None =>
            if decide (k ∈ Cookie_prototype_names)
            then Method Cookie_prototype k
            else if decide (k ∈ Object_prototype_names)
                 then Method Object_prototype k
                 else Undefined
        end
    | None =>
        if decide (k ∈ Object_prototype_names)
        then Method Object_prototype k
        else Undefined
    end.

(** [o[k]] *)
Definition property (o : KeyValue) (k : jsstring) : jsvalue :=
  match own o !! k with
  | Some c => Instance c
  | None => inherited o k
  end.

(** [o[k] = c]: an own property is overwritten; without one, [__proto__]
    reaches the setter of [Object.prototype], which makes [c] the prototype
    and creates no property; any other name becomes an own property (the
    members that can be inherited under it are writable data properties). *)
Definition assign (k : jsstring) (c : Cookie) (o : KeyValue) : KeyValue :=
  match own o !! k with
  | Some _ => mkObject (<[k := c]> (own o)) (prototype o)
  | None =>
      if decide (k = lit "__proto__") then mkObject (own o) (Some c)
      else mkObject (<[k := c]> (own o)) (prototype o)
  end.

(** [delete o[k]] removes an own property and nothing else. *)
Definition remove (k : jsstring) (o : KeyValue) : KeyValue :=
  mkObject (delete k (own o)) (prototype o).

Record CookiesManager : Type := mkManager {
  _incoming : KeyValue;
  _queue : KeyValue
}.

Definition with_incoming (i : KeyValue) (m : CookiesManager)
  : CookiesManager := mkManager i (_queue m).
Definition with_queue (q : KeyValue) (m : CookiesManager)
  : CookiesManager := mkManager (_incoming m) q.

(** [x instanceof Cookie] *)
Definition instanceof_Cookie (x : jsvalue) : bool :=
  match x with Instance _ => true | _ => false end.

(** The values that count as true: every object and function, a non-empty
    string, a number other than 0 and NaN, and [true]. *)
Definition truthy_value (x : jsvalue) : bool :=
  match x with
  | Null | Undefined => false
  | Text s => truthy s
  | Num (Int z) => negb (z =? 0)
  | Num NaN => false
  | Boolean b => b
  | Instance _ | The_Object_prototype | Method _ _ => true
  end.

(** [x || null] *)
Definition or_null (x : jsvalue) : jsvalue :=
  if truthy_value x then x else Null.

(** [null === x] *)
Definition is_null (x : jsvalue) : bool :=
  match x with Null => true | _ => false end.

(** [x ?? d] *)
Definition coalesce (x d : jsvalue) : jsvalue :=
  match x with Null | Undefined => d | _ => x end.

(** An argument of type [ICookie | null]. *)
Definition nullable (x : option Cookie) : jsvalue :=
  match x with Some c => Instance c | None => Null end.

(** [parseCookie] neither reads nor writes the manager. *)
Definition parseCookie (cookie : jsstring) : outcome (option Cookie) :=
  let keyValue := split 61 cookie in
  let (first, keyValue) := shift keyValue in
  obind (decodeURIComponent (trimLeft (or_empty first))) (fun name =>
  if is_empty name then Return None
  else
    let (second, keyValue) := shift keyValue in
    obind (decodeURIComponent (or_empty second)) (fun value =>
    Return (Some (new_Cookie name value)))).

Definition parseIncomingCookies (cookieHeader : jsstring)
  : M CookiesManager unit :=
  let cookies := split 59 cookieHeader in
  forEach (fun cookieString =>
             cookie <~ lift (parseCookie cookieString) ;;
             match cookie with
             | Some cookie =>
                 modify (fun m => with_incoming
                                    (assign (_name cookie) cookie
                                            (_incoming m)) m)
             | None => ret tt
             end) cookies.

(** The state of a manager before its constructor body runs. *)
Definition fresh_manager : CookiesManager :=
  mkManager empty_object empty_object.

(** [new CookiesManager(request)], from the value of
    [request.headers.cookie] ([None] when the header is absent): the manager
    exists when the constructor does not throw. *)
Definition new_CookiesManager (header : option jsstring)
  : outcome CookiesManager :=
  match parseIncomingCookies (or_empty header) fresh_manager with
  | (Return _, m) => Return m
  | (Throw e, _) => Throw e
  end.

Definition hasQueued (name : jsstring) : M CookiesManager bool :=
  read (fun m => instanceof_Cookie (property (_queue m) name)).

Definition queue (cookie : Cookie) : M CookiesManager unit :=
  modify (fun m => with_queue (assign (_name cookie) cookie (_queue m)) m).

Definition unqueue (name : jsstring) : M CookiesManager unit :=
  modify (fun m => with_queue (remove name (_queue m)) m).

(** [incoming] and [queued] are declared to return [ICookie | null]; what
    they return is whatever the read gives, when that counts as true. *)
Definition incoming (name : jsstring) : M CookiesManager jsvalue :=
  read (fun m => or_null (property (_incoming m) name)).

Definition queued (name : jsstring) : M CookiesManager jsvalue :=
  read (fun m => or_null (property (_queue m) name)).

Definition incomingCookies : M CookiesManager KeyValue :=
  read _incoming.

Definition queuedCookies : M CookiesManager KeyValue :=
  read _queue.

Definition get (key : jsstring) (defaultValue : option Cookie)
  : M CookiesManager jsvalue :=
  value <~ queued key ;;
  value <~ (if is_null value then incoming key else ret value) ;;
  ret (coalesce value (nullable defaultValue)).

(** The methods of the manager, as a caller invokes them one after the other;
    [invoke] keeps the state of the manager and drops the result. *)
Inductive call : Type :=
  | Call_parseIncomingCookies (cookieHeader : jsstring)
  | Call_parseCookie (cookie : jsstring)
  | Call_hasQueued (name : jsstring)
  | Call_queue (cookie : Cookie)
  | Call_unqueue (name : jsstring)
  | Call_incoming (name : jsstring)
  | Call_queued (name : jsstring)
  | Call_incomingCookies
  | Call_queuedCookies
  | Call_get (key : jsstring) (defaultValue : option Cookie).

Definition invoke (c : call) (m : CookiesManager) : CookiesManager :=
  match c with
  | Call_parseIncomingCookies h => snd (parseIncomingCookies h m)
  | Call_parseCookie f => snd (lift (parseCookie f) m)
  | Call_hasQueued n => snd (hasQueued n m)
  | Call_queue c => snd (queue c m)
  | Call_unqueue n => snd (unqueue n m)
  | Call_incoming n => snd (incoming n m)
  | Call_queued n => snd (queued n m)
  | Call_incomingCookies => snd (incomingCookies m)
  | Call_queuedCookies => snd (queuedCookies m)
  | Call_get k d => snd (get k d m)
  end.

Definition is_parseIncomingCookies (c : call) : bool :=
  match c with Call_parseIncomingCookies _ => true | _ => false end.

(** ** Reading the programs: what they compute, stated directly *)

(** *** The string of a cookie as a head and a list of segments *)

(** A segment is a keyword, opening with ["; "], and its payload. *)
Definition seg : Type := jsstring * jsstring.
Definition seg_string (s : seg) : jsstring := fst s ++ snd s.
Definition flatten (segs : list seg) : jsstring := concat (map seg_string segs).

(** The keyword opens with the only semicolon of the segment. *)
Definition wf_seg (s : seg) : Prop :=
  exists k, fst s = 59 :: k /\ semicolon_free k /\ semicolon_free (snd s).

(** Whether [p] occurs at the start of a segment does not depend on what
    follows the segment. *)
Definition decided (p : jsstring) (s : seg) : bool :=
  diverges p (fst s) || is_prefix p (seg_string s).

Definition hits (p : jsstring) (segs : list seg) : nat :=
  length (filter (fun s => is_prefix p (seg_string s) = true) segs).

(** The attributes [toString] writes after the value and the expiry. *)
Definition attribute_segments (c : Cookie) : list seg :=
  (if truthy (_path c) then [(lit "; path=", _path c)] else [])
  ++ (if truthy (_domain c) then [(lit "; domain=", _domain c)] else [])
  ++ (if _secure c then [(lit "; secure", [])] else [])
  ++ (if _httpOnly c then [(lit "; httponly", [])] else [])
  ++ (if negb (SameSite_eqb NONE (_sameSite c))
      then [(lit "; samesite=", SameSite_valueOf (_sameSite c))] else []).

(** What [rawIfNeededOf] returns on cookie [c]. *)
Definition emitted (c : Cookie) (s : jsstring) : outcome jsstring :=
  if _raw c then Return s else encodeURIComponent s.

Section CookieReadings.
Context {D : Dayjs}.

(** What [getMaxAge] returns. *)
Definition max_age (now : Z) (c : Cookie) : number :=
  if is_zero (_expiresAt c) then Int 0
  else
    let secondsFromNow := dayjs_diff_seconds (_expiresAt c) (Int now) in
    if is_positive secondsFromNow then secondsFromNow else Int 0.

(** The expiry and Max-Age of a cookie with a value. *)
Definition value_segments (now : Z) (c : Cookie) : list seg :=
  (if negb (is_zero (_expiresAt c))
   then [(lit "; expires=", Redate_responseFormat (_expiresAt c))] else [])
  ++ [(lit "; Max-Age=", number_to_string (max_age now c))].

(** The expiry and Max-Age of a cookie without a value. *)
Definition deletion_segments (c : Cookie) : list seg :=
  [(lit "; expires=", Redate_responseFormat (_expiresAt c));
   (lit "; Max-Age=", lit "0")].

End CookieReadings.

(** *** The fragment of a header *)

(** The text before the first [=] is the name part; the value part is the
    text between the first [=] and the second one (or the end). *)
Definition name_part (fragment : jsstring) : jsstring := before 61 fragment.
Definition value_part (fragment : jsstring) : jsstring :=
  before 61 (after 61 fragment).

(** [parseCookie] in those terms: the name part is trimmed on the left and
    decoded; an empty name gives [null] before the value is looked at;
    otherwise the value part is decoded. A malformed escape in a part that is
    decoded throws. *)
Definition parseCookie_by_parts (fragment : jsstring)
  : outcome (option Cookie) :=
  obind (decodeURIComponent (trimLeft (name_part fragment))) (fun name =>
  match name with
  | [] => Return None
  | _ :: _ =>
      obind (decodeURIComponent (value_part fragment)) (fun value =>
      Return (Some (new_Cookie name value)))
  end).

(** The reading under which the value is everything after the first [=]. *)
Definition parseCookie_value_to_the_end (fragment : jsstring)
  : outcome (option Cookie) :=
  obind (decodeURIComponent (trimLeft (name_part fragment))) (fun name =>
  match name with
  | [] => Return None
  | _ :: _ =>
      obind (decodeURIComponent (after 61 fragment)) (fun value =>
      Return (Some (new_Cookie name value)))
  end).

(** The callback of [parseIncomingCookies], and its effect on the object when
    the fragment parses. *)
Definition store_fragment (cookieString : jsstring) : M CookiesManager unit :=
  cookie <~ lift (parseCookie cookieString) ;;
  match cookie with
  | Some cookie =>
      modify (fun m => with_incoming
                         (assign (_name cookie) cookie (_incoming m)) m)
  | None => ret tt
  end.

Definition store (acc : KeyValue) (fragment : jsstring) : KeyValue :=
  match parseCookie fragment with
  | Return (Some cookie) => assign (_name cookie) cookie acc
  | _ => acc
  end.

(** The cookie an object holds under [k]: its own property, and for
    [__proto__] without an own property the cookie that was made the
    prototype. It is what [assign] has put there last. *)
Definition stored (o : KeyValue) (k : jsstring) : option Cookie :=
  match own o !! k with
  | Some c => Some c
  | None => if decide (k = lit "__proto__") then prototype o else None
  end.

(** ** A reference instance of the collaborators *)

(** [dayjs] and [Redate.responseFormat] on a host whose time zone is UTC
    (proleptic Gregorian calendar; years 0 to 9999 in four digits). *)
Module UTC.

(** Days since 1970-01-01 of a civil date, and back; years are counted from
    March, so that the leap day is the last day of a year. *)
Definition days_from_civil (y m d : Z) : Z :=
  let y := if m <=? 2 then y - 1 else y in
  let era := y / 400 in
  let yoe := y - era * 400 in
  let doy := (153 * (if 2 <? m then m - 3 else m + 9) + 2) / 5 + d - 1 in
  let doe := yoe * 365 + yoe / 4 - yoe / 100 + doy in
  era * 146097 + doe - 719468.

Definition civil_from_days (z : Z) : Z * Z * Z :=
  let z := z + 719468 in
  let era := z / 146097 in
  let doe := z - era * 146097 in
  let yoe := (doe - doe / 1460 + doe / 36524 - doe / 146096) / 365 in
  let y := yoe + era * 400 in
  let doy := doe - (365 * yoe + yoe / 4 - yoe / 100) in
  let mp := (5 * doy + 2) / 153 in
  let d := doy - (153 * mp + 2) / 5 + 1 in
  let m := if mp <? 10 then mp + 3 else mp - 9 in
  (if m <=? 2 then y + 1 else y, m, d).

Definition is_leap (y : Z) : bool :=
  ((y mod 4 =? 0) && negb (y mod 100 =? 0)) || (y mod 400 =? 0).

Definition days_in_month (y m : Z) : Z :=
  if m =? 2 then (if is_leap y then 29 else 28)
  else if (m =? 4) || (m =? 6) || (m =? 9) || (m =? 11) then 30
  else 31.

Definition ms_per_day : Z := 86400000.

(** The range of the time values of a [Date]. *)
Definition isValid (t : number) : bool :=
  match t with
  | Int z => (-8640000000000000 <=? z) && (z <=? 8640000000000000)
  | NaN => false
  end.

(** The same day of the month (the last one, when the month is shorter) and
    the same time of day, [n] years later. *)
Definition add_years (n : Z) (t : number) : number :=
  if isValid t then
    match t with
    | Int z =>
        let '(y, m, d) := civil_from_days (z / ms_per_day) in
        let d' := Z.min d (days_in_month (y + n) m) in
        let r := Int (days_from_civil (y + n) m d' * ms_per_day
                      + z mod ms_per_day) in
        if isValid r then r else NaN
    | NaN => NaN
    end
  else NaN.

(** Whole seconds from [b] to [a], truncated towards zero. *)
Definition diff_seconds (a b : number) : number :=
  match a, b with
  | Int x, Int y =>
      if isValid a && isValid b then Int (Z.quot (x - y) 1000) else NaN
  | _, _ => NaN
  end.

Definition two_digits (n : Z) : jsstring :=
  [48 + (n / 10) mod 10; 48 + n mod 10].

(** The year as [Date.prototype.toUTCString] writes it: a minus sign for a
    year before 0, then at least four digits. *)
Definition year_digits (y : Z) : jsstring :=
  let a := Z.abs y in
  (if y <? 0 then lit "-" else [])
  ++ (if a <=? 9999 then two_digits (a / 100) ++ two_digits (a mod 100)
      else number_to_string (Int a)).

Definition day_name (w : Z) : jsstring :=
  nth (Z.to_nat w)
      (map lit ["Sun"; "Mon"; "Tue"; "Wed"; "Thu"; "Fri"; "Sat"]%string) [].

Definition month_name (m : Z) : jsstring :=
  nth (Z.to_nat (m - 1))
      (map lit ["Jan"; "Feb"; "Mar"; "Apr"; "May"; "Jun";
                "Jul"; "Aug"; "Sep"; "Oct"; "Nov"; "Dec"]%string) [].

(** The HTTP-date of RFC 7231, as in [Wed, 21 Oct 2015 07:28:00 GMT]. *)
Definition responseFormat (t : number) : jsstring :=
  if isValid t then
    match t with
    | Int z =>
        let days := z / ms_per_day in
        let secs := (z mod ms_per_day) / 1000 in
        let '(y, m, d) := civil_from_days days in
        day_name ((days + 4) mod 7) ++ lit ", " ++ two_digits d ++ lit " "
        ++ month_name m ++ lit " " ++ year_digits y ++ lit " "
        ++ two_digits (secs / 3600) ++ lit ":"
        ++ two_digits ((secs / 60) mod 60) ++ lit ":"
        ++ two_digits (secs mod 60) ++ lit " GMT"
    | NaN => lit "Invalid Date"
    end
  else lit "Invalid Date".

End UTC.

Definition utc_dayjs : Dayjs := {|
  dayjs_isValid := UTC.isValid;
  dayjs_subtract_years := fun n t => UTC.add_years (- n) t;
  dayjs_add_years := UTC.add_years;
  dayjs_diff_seconds := UTC.diff_seconds;
  Redate_responseFormat := UTC.responseFormat
|}.

(** Cookies and instants the examples run on. *)
Definition session_cookie : Cookie :=
  mkCookie (lit "sid") (lit "") (Int 1800000000000) (lit "/") (lit "")
           false false true NONE.

Definition app_cookie : Cookie :=
  mkCookie (lit "k") (lit "v") (Int 1700000100500) (lit "/app")
           (lit "example.com") true true true STRICT.

Definition an_instant : Z := 1700000000000.

(** ** The callers of a cookie and the cookies of a manager *)

(** The public methods of a cookie, as a caller invokes them one after the
    other; the methods that read the clock carry the reading of
    [Date.now()] at the call. *)
Inductive cookie_call : Type :=
  | Do_setValue (value : jsstring)
  | Do_setExpire (timestamp : number)
  | Do_expire (now : Z)
  | Do_forever (now : Z)
  | Do_setPath (path : jsstring)
  | Do_setDomain (domain : jsstring)
  | Do_setSecure (secure : bool)
  | Do_setHttpOnly (httpOnly : bool)
  | Do_setRaw (raw : bool)
  | Do_setSameSite (sameSite : SameSite)
  | Do_getName
  | Do_getValue
  | Do_getExpiry
  | Do_getMaxAge (now : Z)
  | Do_hasExpired (now : Z)
  | Do_getPath
  | Do_getDomain
  | Do_isSecure
  | Do_isHttpOnly
  | Do_isRaw
  | Do_getSameSite
  | Do_toString (now : Z).

Section CookieCalls.
Context {D : Dayjs}.

(** The cookie after a call; the result, or the exception, is the
    caller's. *)
Definition cookie_invoke (k : cookie_call) (c : Cookie) : Cookie :=
  match k with
  | Do_setValue v => snd (setValue v c)
  | Do_setExpire t => snd (setExpire t c)
  | Do_expire now => snd (expire now c)
  | Do_forever now => snd (forever now c)
  | Do_setPath p => snd (setPath p c)
  | Do_setDomain d => snd (setDomain d c)
  | Do_setSecure b => snd (setSecure b c)
  | Do_setHttpOnly b => snd (setHttpOnly b c)
  | Do_setRaw b => snd (setRaw b c)
  | Do_setSameSite s => snd (setSameSite s c)
  | Do_getName => snd (getName c)
  | Do_getValue => snd (getValue c)
  | Do_getExpiry => snd (getExpiry c)
  | Do_getMaxAge now => snd (getMaxAge now c)
  | Do_hasExpired now => snd (hasExpired now c)
  | Do_getPath => snd (getPath c)
  | Do_getDomain => snd (getDomain c)
  | Do_isSecure => snd (isSecure c)
  | Do_isHttpOnly => snd (isHttpOnly c)
  | Do_isRaw => snd (isRaw c)
  | Do_getSameSite => snd (getSameSite c)
  | Do_toString now => snd (toString now c)
  end.

End CookieCalls.

(** The calls that assign a field other than [_expiresAt]. *)
Definition assigns_attribute (k : cookie_call) : bool :=
  match k with
  | Do_setValue _ | Do_setPath _ | Do_setDomain _ | Do_setSecure _
  | Do_setHttpOnly _ | Do_setRaw _ | Do_setSameSite _ => true
  | _ => false
  end.


(** A string of whitespace only. *)
Definition blank (s : jsstring) : Prop :=
  Forall (fun c => is_whitespace c = true) s.

(** Free of the three code units that a raw name or value does not survive
    in a header: [=], [;] and [%]. *)
Definition header_safe (s : jsstring) : Prop :=
  Forall (fun c => c <> 61 /\ c <> 59 /\ c <> 37) s.


(** The cookie a fragment leaves under [k], from the cookie [o] that was
    there: its own cookie when it parses to one named [k]. Folded over the
    fragments of a header, the last such fragment decides. *)
Definition overwrite (k : jsstring) (o : option Cookie) (f : jsstring)
  : option Cookie :=
  match parseCookie f with
  | Return (Some c) => if decide (_name c = k) then Some c else o
  | _ => o
  end.

(** A cookie that is percent-encoded on the wire. *)
Definition encoded_cookie : Cookie :=
  mkCookie [32; 233; 61] (lit "a=b; c%") (Int 0) (lit "/") (lit "")
           false true false LAX.

(** * Properties *)

(** ** Sanity checks of the built-ins on concrete strings *)

Example split_header :
  split 59 (lit "; a=1;;") = [lit ""; lit " a=1"; lit ""; lit ""].
Proof. reflexivity. Qed.

Example encode_mixed :
  encodeURIComponent [97; 32; 98; 233; 8364; 55357; 56832; 59; 61]
  = Return (lit "a%20b%C3%A9%E2%82%AC%F0%9F%98%80%3B%3D").
Proof. vm_compute. reflexivity. Qed.

Example decode_mixed :
  decodeURIComponent (lit "a%20b%c3%A9%E2%82%AC%F0%9F%98%80")
  = Return [97; 32; 98; 233; 8364; 55357; 56832].
Proof. vm_compute. reflexivity. Qed.

Example decode_malformed :
  decodeURIComponent (lit "%") = Throw URIError
  /\ decodeURIComponent (lit "%4") = Throw URIError
  /\ decodeURIComponent (lit "%C0%80") = Throw URIError
  /\ decodeURIComponent (lit "%ED%A0%80") = Throw URIError
  /\ decodeURIComponent (lit "%41") = Return (lit "A").
Proof. vm_compute. repeat split. Qed.

Example utc_http_date :
  UTC.responseFormat (Int 1445412480000) = lit "Wed, 21 Oct 2015 07:28:00 GMT"
  /\ UTC.responseFormat (Int 0) = lit "Thu, 01 Jan 1970 00:00:00 GMT"
  /\ UTC.responseFormat (Int (-62198755200000))
     = lit "Fri, 01 Jan -0001 00:00:00 GMT"
  /\ UTC.responseFormat (Int 253402300800000)
     = lit "Sat, 01 Jan 10000 00:00:00 GMT"
  /\ UTC.add_years (-13) (Int an_instant) = Int 1289772800000.
Proof. vm_compute. repeat split. Qed.

Example toString_app_cookie :
  toString (D := utc_dayjs) an_instant app_cookie
  = (Return (lit ("k=v; expires=Tue, 14 Nov 2023 22:15:00 GMT; Max-Age=100"
                  ++ "; path=/app; domain=example.com; secure; httponly"
                  ++ "; samesite=strict")),
     app_cookie).
Proof. vm_compute. reflexivity. Qed.

Example three_cookies :
  parseIncomingCookies (lit "a=1; b=2; c=3") fresh_manager
  = (Return tt,
     mkManager
       (mkObject (<[lit "a" := new_Cookie (lit "a") (lit "1")]>
                  (<[lit "b" := new_Cookie (lit "b") (lit "2")]>
                   (<[lit "c" := new_Cookie (lit "c") (lit "3")]> ∅))) None)
       empty_object).
Proof. vm_compute. reflexivity. Qed.

Example unqueue_restores_incoming :
  let m := mkManager
             (mkObject {[ lit "x" := new_Cookie (lit "x") (lit "old") ]} None)
             empty_object in
  let m' := snd (queue (new_Cookie (lit "x") (lit "new")) m) in
  fst (get (lit "x") None m')
  = Return (Instance (new_Cookie (lit "x") (lit "new")))
  /\ fst (get (lit "x") None (snd (unqueue (lit "x") m')))
     = Return (Instance (new_Cookie (lit "x") (lit "old"))).
Proof. vm_compute. split; reflexivity. Qed.

(** What a plain object gives under names it was never assigned, and what
    becomes of an assignment to [__proto__]. *)
Example reads_of_an_empty_object :
  property empty_object (lit "a") = Undefined
  /\ property empty_object (lit "constructor")
     = Method Object_prototype (lit "constructor")
  /\ property empty_object (lit "__proto__") = The_Object_prototype
  /\ assign (lit "__proto__") (new_Cookie (lit "__proto__") (lit "v"))
            empty_object
     = mkObject ∅ (Some (new_Cookie (lit "__proto__") (lit "v")))
  /\ property (mkObject ∅ (Some (new_Cookie (lit "__proto__") (lit "v"))))
              (lit "_value") = Text (lit "v")
  /\ property (mkObject ∅ (Some (new_Cookie (lit "__proto__") (lit "v"))))
              (lit "getName") = Method Cookie_prototype (lit "getName").
Proof. vm_compute. repeat split. Qed.

(** ** Arithmetic and boolean tests *)

Ltac dlia := Z.div_mod_to_equations; lia.

Ltac bool_cases :=
  repeat match goal with
    | |- context [ (?a <? ?b) ] => destruct (Z.ltb_spec a b)
    | |- context [ (?a <=? ?b) ] => destruct (Z.leb_spec a b)
    | |- context [ (?a =? ?b) ] => destruct (Z.eqb_spec a b)
    end; simpl.

(** Closed strings are checked by evaluation. *)
Lemma semicolon_free_check s :
  forallb (fun c => negb (c =? 59)) s = true -> semicolon_free s.
Proof.
  intros Hs. apply Forall_forall. intros c Hc ->.
  rewrite forallb_forall in Hs. apply list_elem_of_In in Hc.
  specialize (Hs _ Hc). discriminate Hs.
Qed.

Lemma wf_string_check s :
  forallb (fun c => (0 <=? c) && (c <? 65536)) s = true -> wf_string s.
Proof.
  intros Hs. apply Forall_forall. intros c Hc.
  rewrite forallb_forall in Hs. apply list_elem_of_In in Hc.
  specialize (Hs _ Hc). unfold code_unit. lia.
Qed.

(** ** Percent-encoding and decoding *)

Lemma hex_value_digit d : 0 <= d < 16 -> hex_value (hex_digit d) = Some d.
Proof.
  intros Hd. unfold hex_value, hex_digit.
  bool_cases; try lia; f_equal; lia.
Qed.

Lemma escape_percent b rest :
  0 <= b < 256 -> escape (percent b ++ rest) = Some (b, rest).
Proof.
  intros Hb. unfold percent. simpl.
  rewrite !hex_value_digit by dlia.
  do 2 f_equal. dlia.
Qed.

Lemma continuation_percent x rest :
  0 <= x < 64 -> continuation (percent (128 + x) ++ rest) = Some (x, rest).
Proof.
  intros Hx. unfold continuation. rewrite escape_percent by lia.
  bool_cases; try lia. do 2 f_equal. lia.
Qed.

Lemma escape_cons b rest :
  0 <= b < 256 ->
  escape (37 :: hex_digit (b / 16) :: hex_digit (b mod 16) :: rest)
  = Some (b, rest).
Proof. apply escape_percent. Qed.

Lemma continuation_cons x rest :
  0 <= x < 64 ->
  continuation (37 :: hex_digit ((128 + x) / 16)
                   :: hex_digit ((128 + x) mod 16) :: rest)
  = Some (x, rest).
Proof. apply continuation_percent. Qed.

(** One turn of the decoding loop reads back the octets of a code point. *)
Lemma decode_char_utf8 v rest :
  scalar v ->
  exists tl n,
    percent_all (utf8_encode v) = 37 :: tl /\
    decode_char 37 (tl ++ rest) = Return (utf16_encode v, n) /\
    drop n (tl ++ rest) = rest.
Proof.
  intros Hv. unfold utf8_encode, utf16_encode, scalar in *.
  destruct (Z.ltb_spec v 128);
    [|destruct (Z.ltb_spec v 2048); [|destruct (Z.ltb_spec v 65536)]].
  - eexists _, 2%nat. split; [reflexivity|].
    cbn [percent_all percent concat map app]. unfold decode_char.
    rewrite escape_cons by lia.
    change (negb (37 =? 37)) with false. cbv iota.
    split; [|reflexivity]. bool_cases; try lia; reflexivity.
  - eexists _, 5%nat. split; [reflexivity|].
    cbn [percent_all percent concat map app]. unfold decode_char.
    rewrite escape_cons by dlia.
    rewrite continuation_cons by dlia.
    change (negb (37 =? 37)) with false. cbv iota.
    split; [|reflexivity].
    bool_cases; try dlia; do 3 f_equal; dlia.
  - eexists _, 8%nat. split; [reflexivity|].
    cbn [percent_all percent concat map app]. unfold decode_char.
    rewrite escape_cons by dlia.
    rewrite !continuation_cons by dlia.
    change (negb (37 =? 37)) with false. cbv iota.
    split; [|reflexivity].
    bool_cases; try dlia; do 3 f_equal; dlia.
  - eexists _, 11%nat. split; [reflexivity|].
    cbn [percent_all percent concat map app]. unfold decode_char.
    rewrite escape_cons by dlia.
    rewrite !continuation_cons by dlia.
    change (negb (37 =? 37)) with false. cbv iota.
    split; [|reflexivity].
    bool_cases; try dlia; do 2 f_equal; (f_equal; [dlia|]); f_equal; dlia.
Qed.

Lemma decodeURIComponent_cons c rest :
  decodeURIComponent (c :: rest) =
  match decode_char c rest with
  | Throw e => Throw e
  | Return (units, n) =>
      obind (decodeURIComponent (drop n rest)) (fun r => Return (units ++ r))
  end.
Proof.
  simp decodeURIComponent.
  destruct (decode_char c rest) as [[units n]|e]; simpl; [|reflexivity].
  destruct (decodeURIComponent (drop n rest)); reflexivity.
Qed.

Lemma decode_char_plain c rest :
  c <> 37 -> decode_char c rest = Return ([c], 0%nat).
Proof.
  intros Hc. unfold decode_char.
  destruct (Z.eqb_spec c 37); [contradiction | reflexivity].
Qed.

Lemma unreserved_not_percent c : is_unreserved c = true -> c <> 37.
Proof. intros Hu ->. discriminate Hu. Qed.

Lemma decode_percent_utf8 v r :
  scalar v ->
  decodeURIComponent (percent_all (utf8_encode v) ++ r) =
  obind (decodeURIComponent r) (fun s => Return (utf16_encode v ++ s)).
Proof.
  intros Hv. destruct (decode_char_utf8 v r Hv) as (tl & n & -> & Hd & Hn).
  rewrite <- app_comm_cons, decodeURIComponent_cons, Hd, Hn. reflexivity.
Qed.

(** What a successful [encodeURIComponent] did with the head of its
    argument: kept an unreserved code unit, escaped a code unit that is no
    surrogate, or escaped a surrogate pair. *)
Lemma encodeURIComponent_inv c rest e :
  code_unit c -> encodeURIComponent (c :: rest) = Return e ->
  (is_unreserved c = true /\
   exists r, encodeURIComponent rest = Return r /\ e = c :: r)
  \/ (scalar c /\ utf16_encode c = [c] /\
      exists r, encodeURIComponent rest = Return r /\
                e = percent_all (utf8_encode c) ++ r)
  \/ (exists l rest' v r,
        rest = l :: rest' /\
        (code_unit l -> scalar v /\ utf16_encode v = [c; l]) /\
        encodeURIComponent rest' = Return r /\
        e = percent_all (utf8_encode v) ++ r).
Proof.
  unfold code_unit. intros Hc He. cbn [encodeURIComponent] in He.
  destruct (is_unreserved c) eqn:Hu.
  { destruct (encodeURIComponent rest) as [r|]; [|discriminate].
    injection He as <-. left. eauto. }
  destruct (is_low_surrogate c) eqn:Hl; [discriminate|].
  destruct (is_high_surrogate c) eqn:Hh; cbn [negb] in He.
  2:{ destruct (encodeURIComponent rest) as [r|]; [|discriminate].
      injection He as <-. right; left.
      unfold is_low_surrogate, is_high_surrogate in *.
      split; [unfold scalar; lia|]. split; [|eauto].
      unfold utf16_encode. destruct (Z.ltb_spec c 65536); [reflexivity|lia]. }
  destruct rest as [|l rest']; [discriminate|].
  destruct (is_low_surrogate l) eqn:Hl'; [|discriminate].
  destruct (encodeURIComponent rest') as [r|] eqn:Hr; [|discriminate].
  injection He as <-. right; right.
  exists l, rest', ((c - 55296) * 1024 + (l - 56320) + 65536), r.
  split; [reflexivity|]. split; [|split; [assumption | reflexivity]].
  unfold is_low_surrogate, is_high_surrogate, scalar, code_unit in *.
  intros Hlc. split; [lia|]. unfold utf16_encode.
  destruct (Z.ltb_spec ((c - 55296) * 1024 + (l - 56320) + 65536) 65536);
    [lia|].
  f_equal; [dlia|]. f_equal. dlia.
Qed.

(** Induction on a string that [encodeURIComponent] reads one or two code
    units at a time. *)
Lemma string_length_ind (P : jsstring -> Prop) :
  (forall s, (forall t, (length t < length s)%nat -> P t) -> P s) ->
  forall s, P s.
Proof.
  intros Hstep s. remember (length s) as k eqn:Hk.
  revert s Hk. induction (lt_wf k) as [k _ IH]. intros s ->.
  apply Hstep. intros t Ht. exact (IH (length t) Ht t eq_refl).
Qed.

(** Decoding what [encodeURIComponent] returned gives the string back. *)
Lemma decode_encode s :
  wf_string s -> forall e, encodeURIComponent s = Return e ->
  decodeURIComponent e = Return s.
Proof.
  induction s as [s IH] using string_length_ind. intros Hwf e He.
  destruct s as [|c rest]; [injection He as <-; reflexivity|].
  apply Forall_cons in Hwf as [Hc Hrest].
  destruct (encodeURIComponent_inv c rest e Hc He)
    as [(Hu & r & Hr & ->)
       | [(Hs & H16 & r & Hr & ->)
         | (l & rest' & v & r & -> & Hv & Hr & ->)]].
  - rewrite decodeURIComponent_cons, decode_char_plain
      by (apply unreserved_not_percent; assumption).
    change (drop 0 r) with r.
    rewrite (IH rest) by (simpl; lia || assumption). reflexivity.
  - rewrite decode_percent_utf8 by assumption.
    rewrite (IH rest) by (simpl; lia || assumption).
    cbn [obind]. rewrite H16. reflexivity.
  - apply Forall_cons in Hrest as [Hl Hrest']. destruct (Hv Hl) as [Hs H16].
    rewrite decode_percent_utf8 by assumption.
    rewrite (IH rest') by (simpl; lia || assumption).
    cbn [obind]. rewrite H16. reflexivity.
Qed.

Lemma hex_digit_unreserved d :
  0 <= d < 16 -> is_unreserved (hex_digit d) = true.
Proof.
  intros Hd. unfold is_unreserved, hex_digit.
  destruct (Z.ltb_spec d 10); lia.
Qed.

Lemma percent_chars b r :
  0 <= b < 256 -> Forall (fun c => uri_char c = true) r ->
  Forall (fun c => uri_char c = true) (percent b ++ r).
Proof.
  intros Hb Hr. unfold percent. cbn [app].
  repeat apply Forall_cons_2; try assumption; unfold uri_char.
  - reflexivity.
  - rewrite hex_digit_unreserved by dlia. reflexivity.
  - rewrite hex_digit_unreserved by dlia. reflexivity.
Qed.

Lemma percent_all_chars v r :
  0 <= v < 2097152 -> Forall (fun c => uri_char c = true) r ->
  Forall (fun c => uri_char c = true) (percent_all (utf8_encode v) ++ r).
Proof.
  intros Hv Hr. unfold utf8_encode.
  destruct (Z.ltb_spec v 128);
    [|destruct (Z.ltb_spec v 2048); [|destruct (Z.ltb_spec v 65536)]];
    cbn [percent_all concat map]; rewrite ?app_nil_r, <- ?app_assoc;
    repeat (apply percent_chars; [dlia|]); assumption.
Qed.

Lemma scalar_bound v : scalar v -> 0 <= v < 2097152.
Proof. unfold scalar. lia. Qed.

(** [encodeURIComponent] returns unreserved code units and [%] only. *)
Lemma encode_chars s :
  wf_string s -> forall e, encodeURIComponent s = Return e ->
  Forall (fun c => uri_char c = true) e.
Proof.
  induction s as [s IH] using string_length_ind. intros Hwf e He.
  destruct s as [|c rest]; [injection He as <-; constructor|].
  apply Forall_cons in Hwf as [Hc Hrest].
  destruct (encodeURIComponent_inv c rest e Hc He)
    as [(Hu & r & Hr & ->)
       | [(Hs & _ & r & Hr & ->)
         | (l & rest' & v & r & -> & Hv & Hr & ->)]].
  - apply Forall_cons_2; [unfold uri_char; rewrite Hu; reflexivity|].
    apply (IH rest); (simpl; lia) || assumption.
  - apply percent_all_chars; [apply scalar_bound, Hs|].
    apply (IH rest); (simpl; lia) || assumption.
  - apply Forall_cons in Hrest as [Hl Hrest'].
    apply percent_all_chars; [apply scalar_bound, Hv, Hl|].
    apply (IH rest'); (simpl; lia) || assumption.
Qed.

(** A string without surrogates is always encoded. *)
Lemma encodeURIComponent_returns s :
  Forall (fun c => is_high_surrogate c = false /\ is_low_surrogate c = false)
         s ->
  returns (encodeURIComponent s) = true.
Proof.
  induction 1 as [|c s [Hh Hl] _ IH]; [reflexivity|].
  cbn [encodeURIComponent]. rewrite Hh, Hl. cbn [negb].
  destruct (encodeURIComponent s); [|discriminate].
  destruct (is_unreserved c); reflexivity.
Qed.


Lemma uri_chars_no sep s :
  uri_char sep = false ->
  Forall (fun c => uri_char c = true) s -> Forall (fun c => c <> sep) s.
Proof.
  intros Hsep Hs. induction Hs as [|c s Hc Hs IH]; constructor; [|assumption].
  intros ->. congruence.
Qed.

Lemma trimLeft_uri_chars s :
  Forall (fun c => uri_char c = true) s -> trimLeft s = s.
Proof.
  destruct 1 as [|c s Hc Hs]; [reflexivity|]. cbn [trimLeft].
  replace (is_whitespace c) with false; [reflexivity|].
  unfold uri_char, is_unreserved, is_whitespace in *. lia.
Qed.

(** ** Splitting *)

Lemma split_no_sep sep s : Forall (fun c => c <> sep) s -> split sep s = [s].
Proof.
  induction 1 as [|c s Hc Hs IH]; [reflexivity|].
  cbn [split]. destruct (Z.eqb_spec c sep); [contradiction|]. rewrite IH.
  reflexivity.
Qed.

Lemma split_app_sep sep a b :
  Forall (fun c => c <> sep) a -> split sep (a ++ sep :: b) = a :: split sep b.
Proof.
  induction 1 as [|c s Hc Hs IH].
  - cbn [app split]. rewrite Z.eqb_refl. reflexivity.
  - cbn [app split]. destruct (Z.eqb_spec c sep); [contradiction|]. rewrite IH.
    reflexivity.
Qed.

Lemma or_empty_Some s : or_empty (Some s) = s.
Proof. destruct s; reflexivity. Qed.

(** The first piece of a split is what is before the separator; the second
    piece, when there is one, is what is before the separator in the rest. *)
Lemma split_head sep s :
  exists pieces,
    split sep s = before sep s :: pieces /\
    or_empty (fst (shift pieces)) = before sep (after sep s).
Proof.
  induction s as [|c s (pieces & IH & IH')]; [exists []; split; reflexivity|].
  cbn [split before after]. destruct (c =? sep).
  - exists (split sep s). split; [reflexivity|]. rewrite IH. cbn [shift fst].
    apply or_empty_Some.
  - rewrite IH. exists pieces. split; [reflexivity | assumption].
Qed.

Lemma before_Forall (P : Z -> Prop) sep s :
  Forall P s -> Forall P (before sep s).
Proof.
  induction 1 as [|c s Hc _ IH]; [constructor|]. cbn [before].
  destruct (c =? sep); constructor; assumption.
Qed.

Lemma after_Forall (P : Z -> Prop) sep s :
  Forall P s -> Forall P (after sep s).
Proof.
  induction 1 as [|c s Hc Hs IH]; [constructor|]. cbn [after].
  destruct (c =? sep); assumption.
Qed.

Lemma trimLeft_Forall (P : Z -> Prop) s : Forall P s -> Forall P (trimLeft s).
Proof.
  induction 1 as [|c s Hc Hs IH]; [constructor|]. cbn [trimLeft].
  destruct (is_whitespace c); [assumption | constructor; assumption].
Qed.

(** ** Decoding: the strings it accepts and the exception it throws *)

Lemma decode_char_throws c rest e :
  decode_char c rest = Throw e -> e = URIError.
Proof.
  unfold decode_char. intros He.
  repeat match type of He with
         | context [match ?x with _ => _ end] => destruct x
         end; congruence.
Qed.

Lemma decodeURIComponent_throws s :
  forall e, decodeURIComponent s = Throw e -> e = URIError.
Proof.
  induction s as [s IH] using string_length_ind. intros e.
  destruct s as [|c rest]; [simp decodeURIComponent; discriminate|].
  rewrite decodeURIComponent_cons.
  destruct (decode_char c rest) as [[units n]|e'] eqn:Hc.
  - destruct (decodeURIComponent (drop n rest)) as [r|e'] eqn:Hr;
      [discriminate|].
    cbn [obind]. intros [= <-]. apply (IH (drop n rest)); [|assumption].
    rewrite length_drop. simpl. lia.
  - intros [= <-]. eapply decode_char_throws, Hc.
Qed.

(** A string without [%] decodes to itself. *)
Lemma decodeURIComponent_plain s :
  Forall (fun c => c <> 37) s -> decodeURIComponent s = Return s.
Proof.
  induction 1 as [|c s Hc _ IH]; [reflexivity|].
  rewrite decodeURIComponent_cons, decode_char_plain by assumption.
  change (drop 0 s) with s. rewrite IH. reflexivity.
Qed.

(** ** parseCookie *)

Lemma parseCookie_parts fragment :
  parseCookie fragment = parseCookie_by_parts fragment.
Proof.
  unfold parseCookie, parseCookie_by_parts, name_part, value_part.
  destruct (split_head 61 fragment) as (pieces & -> & Hp).
  cbn [shift]. rewrite or_empty_Some.
  destruct (decodeURIComponent (trimLeft (before 61 fragment))) as [name|e];
    [|reflexivity].
  cbn [obind]. destruct name as [|n name]; [reflexivity|].
  cbn [is_empty truthy negb].
  destruct (shift pieces) as [second rest] eqn:Hs. cbn [fst] in Hp.
  rewrite Hp. reflexivity.
Qed.

Lemma parseCookie_throws f :
  returns (parseCookie f) = false -> parseCookie f = Throw URIError.
Proof.
  rewrite parseCookie_parts. unfold parseCookie_by_parts, obind.
  destruct (decodeURIComponent (trimLeft (name_part f)))
    as [[|n name]|e] eqn:Hn; try discriminate.
  - destruct (decodeURIComponent (value_part f)) as [v|e] eqn:Hv;
      try discriminate.
    intros _. f_equal. eapply decodeURIComponent_throws, Hv.
  - intros _. f_equal. eapply decodeURIComponent_throws, Hn.
Qed.

Lemma parseCookie_plain f :
  Forall (fun c => c <> 37) f ->
  parseCookie f =
  Return (match trimLeft (name_part f) with
          | [] => None
          | n :: name => Some (new_Cookie (n :: name) (value_part f))
          end).
Proof.
  intros Hf. rewrite parseCookie_parts. unfold parseCookie_by_parts.
  rewrite !decodeURIComponent_plain
    by (unfold name_part, value_part;
        auto using trimLeft_Forall, before_Forall, after_Forall).
  cbn [obind]. destruct (trimLeft (name_part f)); reflexivity.
Qed.

(** C3, as amended. [parseCookie] cuts the fragment at every [=] and keeps
    the first two pieces: the name part is the text before the first [=], the
    value part the text between the first and the second [=] (up to the end
    when there is no second one, empty when there is no [=]); text after a
    second [=] is dropped. The name part is trimmed on the left and
    percent-decoded; when the decoded name is empty the result is [null] and
    the value part is not decoded; otherwise the value part is percent-decoded
    and the result is the cookie of that name and value. A malformed escape
    in a part that is decoded raises a URIError. *)
Theorem parseCookie_first_two_pieces (fragment : jsstring) :
  parseCookie fragment = parseCookie_by_parts fragment
  /\ (forall c,
        parseCookie fragment = Return (Some c) ->
        decodeURIComponent (trimLeft (name_part fragment)) = Return (_name c)
        /\ decodeURIComponent (value_part fragment) = Return (_value c)
        /\ _name c <> [])
  /\ (forall a b rest,
        Forall (fun c => c <> 61) a -> Forall (fun c => c <> 61) b ->
        name_part (a ++ 61 :: b ++ 61 :: rest) = a /\
        value_part (a ++ 61 :: b ++ 61 :: rest) = b /\
        parseCookie (a ++ 61 :: b ++ 61 :: rest) = parseCookie (a ++ 61 :: b))
  /\ (Forall (fun c => c <> 61) fragment ->
      name_part fragment = fragment /\ value_part fragment = []).
Proof.
  assert (Hb : forall a t, Forall (fun c => c <> 61) a ->
                 before 61 (a ++ 61 :: t) = a /\ after 61 (a ++ 61 :: t) = t).
  { intros a t Ha. induction Ha as [|c a Hc _ [IHb IHa]].
    - split; reflexivity.
    - cbn [app before after]. destruct (Z.eqb_spec c 61); [contradiction|].
      rewrite IHb, IHa. split; reflexivity. }
  assert (Hn : forall a, Forall (fun c => c <> 61) a ->
                 before 61 a = a /\ after 61 a = []).
  { intros a Ha. induction Ha as [|c a Hc _ [IHb IHa]].
    - split; reflexivity.
    - cbn [before after]. destruct (Z.eqb_spec c 61); [contradiction|].
      rewrite IHb, IHa. split; reflexivity. }
  split; [apply parseCookie_parts|]. split; [|split].
  - intros c. rewrite parseCookie_parts. unfold parseCookie_by_parts.
    destruct (decodeURIComponent (trimLeft (name_part fragment)))
      as [[|k name]|e]; cbn [obind]; try discriminate.
    destruct (decodeURIComponent (value_part fragment)) as [v|e];
      cbn [obind]; try discriminate.
    intros [= <-]. cbn [new_Cookie _name _value]. repeat split. discriminate.
  - intros a b rest Ha Hb'. unfold name_part, value_part.
    destruct (Hb a (b ++ 61 :: rest) Ha) as [-> ->].
    destruct (Hb b rest Hb') as [-> _].
    repeat split. rewrite !parseCookie_parts.
    unfold parseCookie_by_parts, name_part, value_part.
    destruct (Hb a (b ++ 61 :: rest) Ha) as [-> ->].
    destruct (Hb a b Ha) as [-> ->].
    destruct (Hb b rest Hb') as [-> _].
    destruct (Hn b Hb') as [-> _]. reflexivity.
  - intros Hf. unfold name_part, value_part.
    destruct (Hn fragment Hf) as [-> ->]. split; reflexivity.
Qed.

(** On [a=b=c] the value is [b], not the [b=c] that follows the first [=]. *)
Lemma parseCookie_drops_after_second_equals :
  parseCookie (lit "a=b=c") <> parseCookie_value_to_the_end (lit "a=b=c")
  /\ parseCookie (lit "a=b=c")
     = Return (Some (mkCookie (lit "a") (lit "b") (Int 0) (lit "/") (lit "")
                              false false true NONE))
  /\ parseCookie_value_to_the_end (lit "a=b=c")
     = Return (Some (mkCookie (lit "a") (lit "b=c") (Int 0) (lit "/")
                              (lit "") false false true NONE)).
Proof.
  assert (H1 : parseCookie (lit "a=b=c")
               = Return (Some (mkCookie (lit "a") (lit "b") (Int 0) (lit "/")
                                        (lit "") false false true NONE)))
    by (vm_compute; reflexivity).
  assert (H2 : parseCookie_value_to_the_end (lit "a=b=c")
               = Return (Some (mkCookie (lit "a") (lit "b=c") (Int 0)
                                        (lit "/") (lit "") false false true
                                        NONE)))
    by (vm_compute; reflexivity).
  split; [|split; assumption]. rewrite H1, H2. discriminate.
Qed.

(** C4. For every non-empty name [n] and every value [v] that
    [encodeURIComponent] encodes, as [en] and [ev], [parseCookie] applied to
    [en + "=" + ev] returns a cookie [c] for which [getName] returns [n] and
    [getValue] returns [v]; its other fields have the defaults of the
    constructor. The name may even contain [=] and [;]: they are escaped. *)
Theorem parse_after_encode_round_trip (n v en ev : jsstring) :
  n <> [] -> wf_string n -> wf_string v ->
  encodeURIComponent n = Return en ->
  encodeURIComponent v = Return ev ->
  exists c,
    parseCookie (en ++ lit "=" ++ ev) = Return (Some c)
    /\ getName c = (Return n, c) /\ getValue c = (Return v, c)
    /\ c = mkCookie n v (Int 0) (lit "/") (lit "") false false true NONE.
Proof.
  intros Hn Hwn Hwv Hen Hev.
  exists (mkCookie n v (Int 0) (lit "/") (lit "") false false true NONE).
  split; [|repeat split].
  pose proof (encode_chars _ Hwn _ Hen) as Hcn.
  pose proof (encode_chars _ Hwv _ Hev) as Hcv.
  unfold parseCookie. change (lit "=" ++ ev) with (61 :: ev).
  rewrite split_app_sep by (apply uri_chars_no; [reflexivity | assumption]).
  rewrite (split_no_sep 61 ev)
    by (apply uri_chars_no; [reflexivity | assumption]).
  cbn [shift]. rewrite !or_empty_Some, trimLeft_uri_chars by assumption.
  rewrite (decode_encode n Hwn en Hen), (decode_encode v Hwv ev Hev).
  cbn [obind]. destruct n; [contradiction|]. reflexivity.
Qed.

Lemma parse_after_encode_round_trip_witness :
  [32; 233; 55357; 56832] <> []
  /\ wf_string [32; 233; 55357; 56832]
  /\ wf_string (lit "a=b; c")
  /\ encodeURIComponent [32; 233; 55357; 56832]
     = Return (lit "%20%C3%A9%F0%9F%98%80")
  /\ encodeURIComponent (lit "a=b; c") = Return (lit "a%3Db%3B%20c")
  /\ parseCookie (lit "%20%C3%A9%F0%9F%98%80" ++ lit "=" ++ lit "a%3Db%3B%20c")
     = Return (Some (mkCookie [32; 233; 55357; 56832] (lit "a=b; c") (Int 0)
                              (lit "/") (lit "") false false true NONE)).
Proof.
  assert (H1 : [32; 233; 55357; 56832] <> []) by discriminate.
  assert (H2 : wf_string [32; 233; 55357; 56832])
    by (apply wf_string_check; reflexivity).
  assert (H3 : wf_string (lit "a=b; c"))
    by (apply wf_string_check; reflexivity).
  assert (H4 : encodeURIComponent [32; 233; 55357; 56832]
               = Return (lit "%20%C3%A9%F0%9F%98%80")) by reflexivity.
  assert (H5 : encodeURIComponent (lit "a=b; c")
               = Return (lit "a%3Db%3B%20c")) by reflexivity.
  repeat (split; [assumption|]).
  destruct (parse_after_encode_round_trip _ _ _ _ H1 H2 H3 H4 H5)
    as (c & Hp & _ & _ & ->).
  exact Hp.
Defined.

(** ** Running a method body *)

Lemma bind_read {S A B} (f : S -> A) (k : A -> M S B) s :
  bind (read f) k s = k (f s) s.
Proof. reflexivity. Qed.

Lemma bind_ret {S A B} (a : A) (k : A -> M S B) s : bind (ret a) k s = k a s.
Proof. reflexivity. Qed.

Lemma bind_if {S A B} (b : bool) (m1 m2 : M S A) (k : A -> M S B) s :
  bind (if b then m1 else m2) k s = if b then bind m1 k s else bind m2 k s.
Proof. destruct b; reflexivity. Qed.

Lemma bind_bind {S A B C} (m : M S A) (k : A -> M S B) (k' : B -> M S C) s :
  bind (bind m k) k' s = bind m (fun a => bind (k a) k') s.
Proof. unfold bind. destruct (m s) as [[a|e] s']; reflexivity. Qed.

Lemma rawIfNeededOf_eq s c : rawIfNeededOf s c = (emitted c s, c).
Proof.
  unfold rawIfNeededOf, emitted, bind, isRaw, read, ret, lift.
  destruct (_raw c); reflexivity.
Qed.

Lemma bind_rawIfNeededOf {B} v (k : jsstring -> M Cookie B) c :
  bind (rawIfNeededOf v) k c =
  match emitted c v with
  | Return v' => k v' c
  | Throw e => (Throw e, c)
  end.
Proof. unfold bind at 1. rewrite rawIfNeededOf_eq. reflexivity. Qed.

Section CookieFacts.
Context {D : Dayjs}.

Lemma getMaxAge_eq now c : getMaxAge now c = (Return (max_age now c), c).
Proof.
  unfold getMaxAge, max_age, bind, getExpiry, read, ret.
  destruct (is_zero (_expiresAt c)); reflexivity.
Qed.

Lemma bind_getMaxAge {B} now (k : number -> M Cookie B) c :
  bind (getMaxAge now) k c = k (max_age now c) c.
Proof. unfold bind at 1. rewrite getMaxAge_eq. reflexivity. Qed.

(** Runs the reads and tests of a method body, given the equations of
    [bind]. *)
Ltac run_binds r1 r2 r3 r4 r5 :=
  repeat (first [ rewrite r1 | rewrite r2 | rewrite r3 | rewrite r4
                | rewrite r5 ];
          cbv beta).

Ltac run_reads r1 r2 r3 r4 r5 :=
  unfold getName, getValue, getExpiry, getPath, getDomain, isSecure,
    isHttpOnly, getSameSite;
  run_binds r1 r2 r3 r4 r5.

(** [toString] on a cookie with a value: the cookie is left as it was. *)
Lemma toString_with_value now c :
  _value c <> [] ->
  toString now c =
  (obind (emitted c (_name c)) (fun n' =>
   obind (emitted c (_value c)) (fun v' =>
   Return (n' ++ lit "=" ++ v'
              ++ flatten (value_segments now c ++ attribute_segments c)))),
   c).
Proof.
  intros Hv. unfold toString.
  unfold getName at 1. rewrite bind_read, bind_rawIfNeededOf.
  destruct (emitted c (_name c)) as [n'|e]; [|reflexivity].
  cbn [obind].
  unfold getValue at 1. rewrite bind_read.
  replace (is_empty (_value c)) with false
    by (destruct (_value c); [contradiction | reflexivity]).
  rewrite bind_bind. unfold getValue at 1.
  rewrite bind_read, bind_bind, bind_rawIfNeededOf.
  destruct (emitted c (_value c)) as [v'|e]; [|reflexivity].
  cbn [obind].
  unfold value_segments, attribute_segments.
  run_reads @bind_read @bind_ret @bind_if @bind_getMaxAge @bind_bind.
  destruct (is_zero (_expiresAt c)), (truthy (_path c)), (truthy (_domain c)),
    (_secure c), (_httpOnly c), (SameSite_eqb NONE (_sameSite c));
    cbn [negb];
    run_reads @bind_read @bind_ret @bind_if @bind_getMaxAge @bind_bind;
    unfold ret;
    cbn [negb app flatten map concat seg_string fst snd];
    rewrite ?app_nil_r, <- ?app_assoc; reflexivity.
Qed.

(** [toString] on a cookie without a value: [expire] runs once the name has
    been written, and the string is built from the cookie it leaves. *)
Lemma toString_without_value now c :
  _value c = [] ->
  toString now c =
  match emitted c (_name c) with
  | Throw e => (Throw e, c)
  | Return n' =>
      match expire now c with
      | (Throw e, c') => (Throw e, c')
      | (Return _, c') =>
          (Return (n' ++ lit "="
                      ++ flatten (deletion_segments c'
                                  ++ attribute_segments c')),
           c')
      end
  end.
Proof.
  intros Hv. unfold toString.
  unfold getName at 1. rewrite bind_read, bind_rawIfNeededOf.
  destruct (emitted c (_name c)) as [n'|e]; [|reflexivity].
  unfold getValue at 1. rewrite bind_read.
  rewrite Hv. cbn [is_empty truthy negb].
  rewrite !bind_bind. unfold bind at 1.
  destruct (expire now c) as [[[]|e] c']; [|reflexivity].
  unfold deletion_segments, attribute_segments.
  run_reads @bind_read @bind_ret @bind_if @bind_getMaxAge @bind_bind.
  destruct (truthy (_path c')), (truthy (_domain c')),
    (_secure c'), (_httpOnly c'), (SameSite_eqb NONE (_sameSite c'));
    cbn [negb];
    run_reads @bind_read @bind_ret @bind_if @bind_getMaxAge @bind_bind;
    unfold ret;
    cbn [negb app flatten map concat seg_string fst snd];
    rewrite ?app_nil_r, <- ?app_assoc; reflexivity.
Qed.

Lemma expire_eq now c :
  expire now c =
  let pastTime := dayjs_subtract_years 13 (Int now) in
  if negb (is_zero pastTime) && negb (dayjs_isValid pastTime)
  then (Throw InvalidArgumentException, c)
  else (Return tt, with_expiresAt pastTime c).
Proof.
  unfold expire, setExpire, throw, modify. cbv zeta.
  destruct (_ && _); reflexivity.
Qed.


(** C5. [setExpire(t)] raises InvalidArgument exactly when [t] is not zero
    and [dayjs] finds it invalid, and then leaves every field of the cookie
    as it was; when [t] is zero or valid it raises nothing, [expiresAt]
    becomes [t] (so [getExpiry] returns [t]) and the other fields stay. *)
Theorem setExpire_validates (t : number) (c : Cookie) :
  (fst (setExpire t c) = Throw InvalidArgumentException <->
   is_zero t = false /\ dayjs_isValid t = false)
  /\ (is_zero t = false /\ dayjs_isValid t = false ->
      setExpire t c = (Throw InvalidArgumentException, c))
  /\ (is_zero t = true \/ dayjs_isValid t = true ->
      setExpire t c =
      (Return tt,
       mkCookie (_name c) (_value c) t (_path c) (_domain c) (_secure c)
                (_httpOnly c) (_raw c) (_sameSite c))
      /\ _expiresAt (snd (setExpire t c)) = t
      /\ fst (getExpiry (snd (setExpire t c))) = Return t).
Proof.
  unfold setExpire, throw, modify, getExpiry, read.
  destruct (is_zero t), (dayjs_isValid t); cbn [negb andb fst snd];
    (split; [split; [intros H | intros [H1 H2]]
            | split; [intros [H1 H2] | intros H]]);
    try discriminate; try reflexivity; try (repeat split; reflexivity);
    destruct H; discriminate.
Qed.

(** C10. For every cookie whose value is not the empty string, [toString]
    leaves every field as it was, whether it returns or throws, and so does
    the [getMaxAge] it calls; [expiresAt] is written in the empty-value case
    only. *)
Theorem toString_pure_with_value (now : Z) (c : Cookie) :
  _value c <> [] ->
  snd (toString now c) = c /\ snd (getMaxAge now c) = c.
Proof.
  intros Hv. rewrite toString_with_value, getMaxAge_eq by assumption.
  split; reflexivity.
Qed.

End CookieFacts.



Lemma toString_pure_with_value_witness :
  _value app_cookie <> []
  /\ snd (toString (D := utc_dayjs) an_instant app_cookie) = app_cookie.
Proof.
  assert (Hv : _value app_cookie <> []) by discriminate.
  split; [assumption|].
  exact (proj1 (toString_pure_with_value (D := utc_dayjs) an_instant
                  app_cookie Hv)).
Defined.

(** ** Counting the occurrences of an attribute text *)

Lemma is_prefix_app p s t :
  is_prefix p s = true -> is_prefix p (s ++ t) = true.
Proof.
  revert s. induction p as [|a p IH]; intros [|b s] Hp; try reflexivity;
    try discriminate.
  cbn [is_prefix app] in *. apply andb_true_iff in Hp as [-> Hp].
  rewrite IH by assumption. reflexivity.
Qed.

Lemma diverges_app p k t :
  diverges p k = true -> is_prefix p (k ++ t) = false.
Proof.
  revert k. induction p as [|a p IH]; intros [|b k] Hd; try discriminate.
  cbn [diverges is_prefix app] in *.
  destruct (a =? b); [|reflexivity]. cbn [negb orb andb] in *. auto.
Qed.

(** A text that opens with a semicolon does not occur where there is none. *)
Lemma occurrences_skip p' a b :
  semicolon_free a ->
  occurrences (59 :: p') (a ++ b) = occurrences (59 :: p') b.
Proof.
  induction 1 as [|c a Hc Ha IH]; [reflexivity|].
  cbn [app occurrences is_prefix]. rewrite IH.
  destruct (Z.eqb_spec 59 c); [congruence|]. reflexivity.
Qed.

(** In a head without semicolon followed by segments, such a text occurs
    only at the start of a segment. *)
Lemma occurrences_segments p' pre segs :
  semicolon_free pre ->
  Forall (fun s => wf_seg s /\ decided (59 :: p') s = true) segs ->
  occurrences (59 :: p') (pre ++ flatten segs) = hits (59 :: p') segs.
Proof.
  intros Hpre Hsegs. rewrite occurrences_skip by assumption. clear pre Hpre.
  induction Hsegs as [|[k payload] segs [(k' & Hk & Hk' & Hpay) Hdec] _ IH];
    [reflexivity|].
  cbn [fst snd] in *. subst k.
  unfold flatten, hits in *. cbn [map concat].
  unfold seg_string at 1. cbn [fst snd].
  rewrite <- app_assoc. cbn [app occurrences].
  rewrite !occurrences_skip by assumption. rewrite IH, filter_cons.
  change (59 :: k' ++ payload ++ concat (map seg_string segs))
    with ((59 :: k') ++ payload ++ concat (map seg_string segs)).
  unfold decided in Hdec.
  change (seg_string (59 :: k', payload)) with ((59 :: k') ++ payload) in *.
  cbn [fst] in Hdec.
  destruct (diverges (59 :: p') (59 :: k')) eqn:Hdiv.
  - rewrite !diverges_app by assumption.
    rewrite decide_False by discriminate. reflexivity.
  - cbn [orb] in Hdec.
    rewrite app_assoc, is_prefix_app by assumption.
    rewrite decide_True by assumption. reflexivity.
Qed.

Lemma hits_app p a b : hits p (a ++ b) = (hits p a + hits p b)%nat.
Proof. unfold hits. rewrite filter_app, length_app. reflexivity. Qed.

Lemma flatten_app a b : flatten (a ++ b) = flatten a ++ flatten b.
Proof. unfold flatten. rewrite map_app, concat_app. reflexivity. Qed.

(** A text that diverges from the keyword of every segment occurs at the
    start of none. *)
Lemma hits_diverges p segs :
  Forall (fun sg => diverges p (fst sg) = true) segs ->
  Forall (fun sg => decided p sg = true) segs /\ hits p segs = 0%nat.
Proof.
  induction 1 as [|sg segs Hd _ [IHd IHh]]; [split; [constructor | reflexivity]|].
  split.
  - constructor; [|assumption]. unfold decided. rewrite Hd. reflexivity.
  - unfold hits in *. rewrite filter_cons, decide_False; [assumption|].
    unfold seg_string. rewrite diverges_app by assumption. discriminate.
Qed.

(** The text of an attribute is neither [; expires=] nor [; Max-Age=]: it is
    counted in the attribute segments alone. *)
Lemma occurrences_of_attribute p s head pre attrs :
  opens_with_semicolon p = true ->
  diverges p (lit "; expires=") = true ->
  diverges p (lit "; Max-Age=") = true ->
  s = head ++ flatten (pre ++ attrs) ->
  semicolon_free head ->
  Forall (fun sg => wf_seg sg /\
                    (fst sg = lit "; expires=" \/ fst sg = lit "; Max-Age="))
         pre ->
  Forall wf_seg attrs ->
  Forall (fun sg => decided p sg = true) attrs ->
  occurrences p s = hits p attrs.
Proof.
  intros Hp He Hm -> Hhead Hpre Hattrs Hdec.
  destruct p as [|c p']; [discriminate|]. cbn [opens_with_semicolon] in Hp.
  apply Z.eqb_eq in Hp. subst c.
  assert (Hpre' : Forall (fun sg => diverges (59 :: p') (fst sg) = true) pre).
  { eapply Forall_impl; [exact Hpre|]. intros sg [_ [-> | ->]]; assumption. }
  destruct (hits_diverges _ _ Hpre') as [Hpd Hph].
  rewrite occurrences_segments; [|assumption|].
  - rewrite hits_app, Hph. reflexivity.
  - apply Forall_app_2; apply Forall_and; split; try assumption.
    eapply Forall_impl; [exact Hpre|]. intros sg [Hw _]. exact Hw.
Qed.

(** ** The strings of a cookie contain no semicolon of their own *)

Lemma lit_String a s : lit (String a s) = Z.of_N (N_of_ascii a) :: lit s.
Proof. reflexivity. Qed.

Lemma digits_semicolon_free d :
  semicolon_free (lit (NilEmpty.string_of_uint d)).
Proof.
  induction d; cbn [NilEmpty.string_of_uint]; rewrite ?lit_String;
    constructor; (discriminate || assumption).
Qed.

Lemma number_to_string_semicolon_free x : semicolon_free (number_to_string x).
Proof.
  destruct x as [z|]; [|(apply semicolon_free_check; reflexivity)].
  unfold number_to_string, NilZero.string_of_int, NilZero.string_of_uint.
  destruct (Z.to_int z) as [d|d]; destruct d;
    rewrite ?lit_String; repeat constructor; try discriminate;
    apply digits_semicolon_free.
Qed.

Lemma emitted_semicolon_free c s s' :
  wf_string s -> (_raw c = true -> semicolon_free s) ->
  emitted c s = Return s' -> semicolon_free s'.
Proof.
  unfold emitted. intros Hwf Hraw He. destruct (_raw c).
  - injection He as <-. auto.
  - eapply uri_chars_no; [reflexivity|]. eapply encode_chars; eassumption.
Qed.

Lemma wf_seg_intro k payload :
  semicolon_free k -> semicolon_free payload -> wf_seg (59 :: k, payload).
Proof. intros. exists k. auto. Qed.

Lemma SameSite_valueOf_semicolon_free s : semicolon_free (SameSite_valueOf s).
Proof. destruct s; (apply semicolon_free_check; reflexivity). Qed.

Lemma attribute_segments_wf c :
  semicolon_free (_path c) -> semicolon_free (_domain c) ->
  Forall wf_seg (attribute_segments c).
Proof.
  intros Hp Hd. unfold attribute_segments.
  repeat apply Forall_app_2;
    match goal with |- Forall _ (if ?b then _ else _) => destruct b end;
    try apply Forall_nil_2;
    (apply Forall_cons_2; [|apply Forall_nil_2]);
    apply wf_seg_intro;
    first [ assumption | apply SameSite_valueOf_semicolon_free
          | (apply semicolon_free_check; reflexivity) ].
Qed.

Section AttributeEmission.
Context {D : Dayjs}.

(** The shape of every string [toString] returns: a head without
    semicolon, the expiry and Max-Age segments, the attribute segments. *)
Lemma toString_shape now c s :
  wf_string (_name c) -> wf_string (_value c) ->
  (_raw c = true -> semicolon_free (_name c) /\ semicolon_free (_value c)) ->
  semicolon_free (Redate_responseFormat (_expiresAt c)) ->
  semicolon_free
    (Redate_responseFormat (dayjs_subtract_years 13 (Int now))) ->
  fst (toString now c) = Return s ->
  exists head pre,
    s = head ++ flatten (pre ++ attribute_segments c) /\
    semicolon_free head /\
    Forall (fun sg => wf_seg sg /\
                      (fst sg = lit "; expires=" \/ fst sg = lit "; Max-Age="))
           pre.
Proof.
  intros Hwn Hwv Hraw Hfmt Hfmt' Hs.
  assert (Heq : semicolon_free (lit "=")) by (apply semicolon_free_check; reflexivity).
  destruct (_value c) as [|v0 vs] eqn:Hv.
  - rewrite toString_without_value in Hs by assumption.
    destruct (emitted c (_name c)) as [n'|e] eqn:Hn; [|discriminate].
    rewrite expire_eq in Hs. cbv zeta in Hs.
    destruct (_ && _); [discriminate|].
    cbn [fst] in Hs. injection Hs as <-.
    exists (n' ++ lit "="),
      (deletion_segments
         (with_expiresAt (dayjs_subtract_years 13 (Int now)) c)).
    split; [|split].
    + rewrite <- app_assoc. reflexivity.
    + apply Forall_app_2; [|assumption].
      eapply emitted_semicolon_free; [exact Hwn| |exact Hn].
      intros; apply Hraw; assumption.
    + unfold deletion_segments.
      repeat apply Forall_cons_2; try apply Forall_nil_2;
        (split; [apply wf_seg_intro;
                 first [exact Hfmt' | (apply semicolon_free_check; reflexivity)]
                | auto]).
  - rewrite toString_with_value in Hs by (rewrite Hv; discriminate).
    rewrite Hv in Hs. cbn [fst] in Hs.
    destruct (emitted c (_name c)) as [n'|e] eqn:Hn; [|discriminate].
    destruct (emitted c (v0 :: vs)) as [v'|e] eqn:Hv'; [|discriminate].
    cbn [obind] in Hs. injection Hs as <-.
    exists (n' ++ lit "=" ++ v'), (value_segments now c). split; [|split].
    + rewrite <- !app_assoc. reflexivity.
    + repeat apply Forall_app_2; try assumption.
      * eapply emitted_semicolon_free; [exact Hwn| |exact Hn].
        intros; apply Hraw; assumption.
      * eapply emitted_semicolon_free; [exact Hwv| |exact Hv'].
        intros; apply Hraw; assumption.
    + unfold value_segments.
      apply Forall_app_2.
      * destruct (negb _); [|apply Forall_nil_2].
        apply Forall_cons_2; [|apply Forall_nil_2].
        split; [apply wf_seg_intro;
                first [exact Hfmt | (apply semicolon_free_check; reflexivity)]
               | auto].
      * apply Forall_cons_2; [|apply Forall_nil_2].
        split; [apply wf_seg_intro;
                first [apply number_to_string_semicolon_free
                      | (apply semicolon_free_check; reflexivity)]
               | auto].
Qed.

End AttributeEmission.

Section AttributeCounts.
Context {D : Dayjs}.

(** C6, as amended. Take a cookie whose name and value (when raw is true;
    when it is false they are percent-encoded), path, domain and formatted
    expiry (of the stored [expiresAt], and of the instant [expire] would
    store) contain no [;], and let [toString] return [s]. If path is [/app],
    domain is [example.com], secure and httpOnly are true and sameSite is
    Strict, then [s] ends with
    [; path=/app; domain=example.com; secure; httponly; samesite=strict]
    and each of these five texts occurs exactly once in [s]. For every such
    cookie, an attribute at its default-omit value (empty path, empty domain,
    secure false, httpOnly false, sameSite None) leaves no occurrence of its
    text ([; path=], [; domain=], [; secure], [; httponly], [; samesite=])
    in [s]. *)
Theorem attribute_emission (now : Z) (c : Cookie) (s : jsstring) :
  wf_string (_name c) -> wf_string (_value c) ->
  (_raw c = true -> semicolon_free (_name c) /\ semicolon_free (_value c)) ->
  semicolon_free (Redate_responseFormat (_expiresAt c)) ->
  semicolon_free
    (Redate_responseFormat (dayjs_subtract_years 13 (Int now))) ->
  semicolon_free (_path c) -> semicolon_free (_domain c) ->
  fst (toString now c) = Return s ->
  (_path c = lit "/app" -> _domain c = lit "example.com" ->
   _secure c = true -> _httpOnly c = true -> _sameSite c = STRICT ->
   (exists head,
      s = head ++ lit "; path=/app" ++ lit "; domain=example.com"
               ++ lit "; secure" ++ lit "; httponly"
               ++ lit "; samesite=strict") /\
   occurrences (lit "; path=/app") s = 1%nat /\
   occurrences (lit "; domain=example.com") s = 1%nat /\
   occurrences (lit "; secure") s = 1%nat /\
   occurrences (lit "; httponly") s = 1%nat /\
   occurrences (lit "; samesite=strict") s = 1%nat)
  /\ (_path c = [] -> occurrences (lit "; path=") s = 0%nat)
  /\ (_domain c = [] -> occurrences (lit "; domain=") s = 0%nat)
  /\ (_secure c = false -> occurrences (lit "; secure") s = 0%nat)
  /\ (_httpOnly c = false -> occurrences (lit "; httponly") s = 0%nat)
  /\ (_sameSite c = NONE -> occurrences (lit "; samesite=") s = 0%nat).
Proof.
  intros Hwn Hwv Hraw Hfmt Hfmt' Hsp Hsd Hs.
  destruct (toString_shape now c s Hwn Hwv Hraw Hfmt Hfmt' Hs)
    as (head & pre & Heq & Hhead & Hpre).
  pose proof (attribute_segments_wf c Hsp Hsd) as Hattrs.
  assert (Hocc : forall p,
            opens_with_semicolon p = true ->
            diverges p (lit "; expires=") = true ->
            diverges p (lit "; Max-Age=") = true ->
            Forall (fun sg => decided p sg = true) (attribute_segments c) ->
            occurrences p s = hits p (attribute_segments c)).
  { intros p Hp He Hm.
    exact (occurrences_of_attribute p s head pre (attribute_segments c)
             Hp He Hm Heq Hhead Hpre Hattrs). }
  assert (Habsent : forall p,
            opens_with_semicolon p = true ->
            diverges p (lit "; expires=") = true ->
            diverges p (lit "; Max-Age=") = true ->
            Forall (fun sg => diverges p (fst sg) = true)
                   (attribute_segments c) ->
            occurrences p s = 0%nat).
  { intros p Hp He Hm Hd. destruct (hits_diverges _ _ Hd) as [Hdec Hhits].
    rewrite (Hocc p Hp He Hm Hdec). exact Hhits. }
  split; [|repeat split].
  - intros Hp Hd Hsec Hh Hss.
    assert (Ha : attribute_segments c =
                 [(lit "; path=", lit "/app");
                  (lit "; domain=", lit "example.com");
                  (lit "; secure", []); (lit "; httponly", []);
                  (lit "; samesite=", lit "strict")]).
    { unfold attribute_segments. rewrite Hp, Hd, Hsec, Hh, Hss. reflexivity. }
    rewrite Ha in *.
    split.
    { exists (head ++ flatten pre). rewrite Heq, flatten_app, <- app_assoc.
      reflexivity. }
    repeat split;
      (rewrite Hocc; [reflexivity | reflexivity .. | repeat constructor]).
  - intros Hp. apply Habsent; try reflexivity.
    unfold attribute_segments. rewrite Hp. cbn [truthy].
    repeat apply Forall_app_2;
      repeat match goal with
        | |- Forall _ (if ?b then _ else _) => destruct b
        end; repeat constructor.
  - intros Hp. apply Habsent; try reflexivity.
    unfold attribute_segments. rewrite Hp. cbn [truthy].
    repeat apply Forall_app_2;
      repeat match goal with
        | |- Forall _ (if ?b then _ else _) => destruct b
        end; repeat constructor.
  - intros Hp. apply Habsent; try reflexivity.
    unfold attribute_segments. rewrite Hp.
    repeat apply Forall_app_2;
      repeat match goal with
        | |- Forall _ (if ?b then _ else _) => destruct b
        end; repeat constructor.
  - intros Hp. apply Habsent; try reflexivity.
    unfold attribute_segments. rewrite Hp.
    repeat apply Forall_app_2;
      repeat match goal with
        | |- Forall _ (if ?b then _ else _) => destruct b
        end; repeat constructor.
  - intros Hp. apply Habsent; try reflexivity.
    unfold attribute_segments. rewrite Hp. cbn [negb SameSite_eqb].
    repeat apply Forall_app_2;
      repeat match goal with
        | |- Forall _ (if ?b then _ else _) => destruct b
        end; repeat constructor.
Qed.

End AttributeCounts.

(** A raw name that carries [; secure]: the text occurs twice in the string
    of a cookie with the five attributes set; and a raw value that carries
    it: the text occurs in the string of a cookie whose secure flag is
    false. *)
Lemma attribute_text_in_raw_name :
  (exists s,
     fst (toString (D := utc_dayjs) an_instant
            (mkCookie (lit "k; secure") (lit "v") (Int 0) (lit "/app")
                      (lit "example.com") true true true STRICT))
     = Return s
     /\ occurrences (lit "; secure") s = 2%nat)
  /\ (exists s,
        fst (toString (D := utc_dayjs) an_instant
               (mkCookie (lit "k") (lit "v; secure") (Int 0) (lit "/")
                         (lit "") false false true NONE))
        = Return s
        /\ occurrences (lit "; secure") s = 1%nat).
Proof.
  split.
  - exists (lit ("k; secure=v; Max-Age=0; path=/app; domain=example.com"
                 ++ "; secure; httponly; samesite=strict")).
    vm_compute. split; reflexivity.
  - exists (lit "k=v; secure; Max-Age=0; path=/").
    vm_compute. split; reflexivity.
Qed.

Lemma attribute_emission_witness :
  let s := lit ("k=v; expires=Tue, 14 Nov 2023 22:15:00 GMT; Max-Age=100"
                ++ "; path=/app; domain=example.com; secure; httponly"
                ++ "; samesite=strict") in
  let s' := lit ("sid=; expires=Sun, 14 Nov 2010 22:13:20 GMT"
                 ++ "; Max-Age=0; path=/") in
  (fst (toString (D := utc_dayjs) an_instant app_cookie) = Return s
   /\ occurrences (lit "; path=/app") s = 1%nat
   /\ occurrences (lit "; domain=example.com") s = 1%nat
   /\ occurrences (lit "; secure") s = 1%nat
   /\ occurrences (lit "; httponly") s = 1%nat
   /\ occurrences (lit "; samesite=strict") s = 1%nat)
  /\ (fst (toString (D := utc_dayjs) an_instant session_cookie) = Return s'
      /\ occurrences (lit "; domain=") s' = 0%nat
      /\ occurrences (lit "; secure") s' = 0%nat
      /\ occurrences (lit "; httponly") s' = 0%nat
      /\ occurrences (lit "; samesite=") s' = 0%nat).
Proof.
  intros s s'.
  assert (Hs : fst (toString (D := utc_dayjs) an_instant app_cookie)
               = Return s) by (vm_compute; reflexivity).
  assert (Hs' : fst (toString (D := utc_dayjs) an_instant session_cookie)
                = Return s') by (vm_compute; reflexivity).
  split; (split; [assumption|]).
  - refine (proj2 (proj1 (attribute_emission (D := utc_dayjs) an_instant
                            app_cookie s _ _ _ _ _ _ _ Hs)
                     eq_refl eq_refl eq_refl eq_refl eq_refl)).
    + apply wf_string_check; reflexivity.
    + apply wf_string_check; reflexivity.
    + intros _. split; (apply semicolon_free_check; reflexivity).
    + (apply semicolon_free_check; reflexivity).
    + (apply semicolon_free_check; reflexivity).
    + (apply semicolon_free_check; reflexivity).
    + (apply semicolon_free_check; reflexivity).
  - assert (Hw : wf_string (_name session_cookie))
      by (apply wf_string_check; reflexivity).
    assert (Hw' : wf_string (_value session_cookie))
      by (apply wf_string_check; reflexivity).
    assert (Hr : _raw session_cookie = true ->
                 semicolon_free (_name session_cookie) /\
                 semicolon_free (_value session_cookie))
      by (intros _; split; (apply semicolon_free_check; reflexivity)).
    assert (Hf : semicolon_free
                   (Redate_responseFormat (Dayjs := utc_dayjs)
                      (_expiresAt session_cookie)))
      by (apply semicolon_free_check; reflexivity).
    assert (Hf' : semicolon_free
                    (Redate_responseFormat (Dayjs := utc_dayjs)
                       (dayjs_subtract_years (Dayjs := utc_dayjs) 13
                          (Int an_instant))))
      by (apply semicolon_free_check; reflexivity).
    assert (Hp : semicolon_free (_path session_cookie))
      by (apply semicolon_free_check; reflexivity).
    assert (Hd : semicolon_free (_domain session_cookie))
      by (apply semicolon_free_check; reflexivity).
    destruct (proj2 (attribute_emission (D := utc_dayjs) an_instant
                       session_cookie s' Hw Hw' Hr Hf Hf' Hp Hd Hs'))
      as (_ & Hdom & Hsec & Hhttp & Hsame).
    split; [apply Hdom; reflexivity|].
    split; [apply Hsec; reflexivity|].
    split; [apply Hhttp; reflexivity | apply Hsame; reflexivity].
Defined.

(** ** The manager *)

(** *** Reads and writes of the two objects *)

Lemma stored_assign k c o k' :
  stored (assign k c o) k' = if decide (k = k') then Some c else stored o k'.
Proof.
  unfold stored, assign.
  destruct (own o !! k) as [c0|] eqn:Hk.
  - cbn [own prototype]. rewrite lookup_insert.
    destruct (decide (k = k')) as [<-|Hne]; [reflexivity|]. reflexivity.
  - destruct (decide (k = lit "__proto__")) as [->|Hp]; cbn [own prototype].
    + destruct (decide (lit "__proto__" = k')) as [<-|Hne].
      * rewrite Hk, decide_True by reflexivity. reflexivity.
      * destruct (decide (k' = lit "__proto__")); [congruence|].
        reflexivity.
    + rewrite lookup_insert.
      destruct (decide (k = k')) as [<-|Hne]; reflexivity.
Qed.

Lemma stored_remove k o k' :
  stored (remove k o) k' =
  if decide (k = k')
  then (if decide (k = lit "__proto__") then prototype o else None)
  else stored o k'.
Proof.
  unfold stored, remove. cbn [own prototype]. rewrite lookup_delete.
  destruct (decide (k = k')) as [<-|Hne]; reflexivity.
Qed.

Lemma field_not_instance c k :
  match field c k with
  | Some v => instanceof_Cookie v = false
  | None => True
  end.
Proof.
  unfold field.
  repeat (case_decide; [reflexivity|]). exact I.
Qed.

(** A read gives the cookie the object holds under the name, and something
    that is no cookie when it holds none. *)
Lemma property_stored o k :
  match stored o k with
  | Some c => property o k = Instance c
  | None => property o k = inherited o k
            /\ instanceof_Cookie (inherited o k) = false
  end.
Proof.
  unfold stored, property.
  destruct (own o !! k) as [c|]; [reflexivity|].
  unfold inherited.
  destruct (decide (k = lit "__proto__")) as [->|Hp].
  - destruct (prototype o); [reflexivity | split; reflexivity].
  - split; [reflexivity|].
    destruct (prototype o) as [c|].
    + pose proof (field_not_instance c k) as Hf.
      destruct (field c k); [exact Hf|].
      repeat case_decide; reflexivity.
    + case_decide; reflexivity.
Qed.

Lemma property_assign k c o : property (assign k c o) k = Instance c.
Proof.
  pose proof (property_stored (assign k c o) k) as H.
  rewrite stored_assign, decide_True in H by reflexivity. exact H.
Qed.

Lemma instanceof_property o k :
  instanceof_Cookie (property o k) = bool_decide (is_Some (stored o k)).
Proof.
  pose proof (property_stored o k) as H.
  destruct (stored o k) as [c|].
  - rewrite H, bool_decide_eq_true_2 by eauto. reflexivity.
  - destruct H as [-> ->]. rewrite bool_decide_eq_false_2; [reflexivity|].
    intros [? [=]].
Qed.

(** A name the object does not inherit reads as what is stored. *)
Lemma property_plain o k :
  inherited o k = Undefined ->
  property o k = match stored o k with
                 | Some c => Instance c
                 | None => Undefined
                 end.
Proof.
  intros Hi. pose proof (property_stored o k) as H.
  destruct (stored o k); [exact H|]. destruct H as [-> _]. exact Hi.
Qed.

Lemma get_eq key d m :
  get key d m =
  (Return (coalesce (if is_null (or_null (property (_queue m) key))
                     then or_null (property (_incoming m) key)
                     else or_null (property (_queue m) key))
                    (nullable d)), m).
Proof.
  unfold get, queued, incoming. rewrite bind_read.
  destruct (is_null (or_null (property (_queue m) key))).
  - rewrite bind_read. reflexivity.
  - rewrite bind_ret. reflexivity.
Qed.

(** C2, where the code departs from it. [get('constructor', d)] returns a
    function whenever the queue has no own property [constructor]: the read
    of the queue finds the member [constructor] that every object inherits
    (from the cookie that is its prototype, or from [Object.prototype]),
    which counts as a queued value. So [get] returns neither [d] nor the
    incoming cookie of that name, and nothing that is a cookie; the manager
    is left as it was. *)
Theorem get_finds_inherited_constructor (defaultValue : option Cookie)
    (m : CookiesManager) :
  own (_queue m) !! lit "constructor" = None ->
  let found :=
    Method (match prototype (_queue m) with
            | Some _ => Cookie_prototype
            | None => Object_prototype
            end) (lit "constructor") in
  get (lit "constructor") defaultValue m = (Return found, m)
  /\ fst (queued (lit "constructor") m) = Return found
  /\ found <> nullable defaultValue
  /\ (forall c, found <> Instance c)
  /\ (forall c,
        property (_incoming m) (lit "constructor") = Instance c ->
        fst (incoming (lit "constructor") m) = Return (Instance c)
        /\ fst (get (lit "constructor") defaultValue m)
           <> Return (Instance c)).
Proof.
  intros Hown. cbv zeta.
  assert (Hq : property (_queue m) (lit "constructor")
               = Method (match prototype (_queue m) with
                         | Some _ => Cookie_prototype
                         | None => Object_prototype
                         end) (lit "constructor")).
  { unfold property. rewrite Hown. unfold inherited.
    destruct (prototype (_queue m)) as [c|]; reflexivity. }
  assert (Hg : get (lit "constructor") defaultValue m
               = (Return (Method (match prototype (_queue m) with
                                  | Some _ => Cookie_prototype
                                  | None => Object_prototype
                                  end) (lit "constructor")), m)).
  { rewrite get_eq, Hq. reflexivity. }
  split; [exact Hg|]. split.
  { unfold queued, read. cbn [fst]. rewrite Hq. reflexivity. }
  split; [destruct defaultValue; discriminate|].
  split; [discriminate|].
  intros c Hc. split.
  - unfold incoming, read. cbn [fst]. rewrite Hc. reflexivity.
  - rewrite Hg. discriminate.
Qed.

Lemma get_finds_inherited_constructor_witness :
  let c := mkCookie (lit "constructor") (lit "1") (Int 0) (lit "/") (lit "")
                    false false true NONE in
  let m := mkManager (mkObject {[ lit "constructor" := c ]} None)
                     empty_object in
  new_CookiesManager (Some (lit "constructor=1")) = Return m
  /\ own (_queue m) !! lit "constructor" = None
  /\ fst (incoming (lit "constructor") m) = Return (Instance c)
  /\ get (lit "constructor") None m
     = (Return (Method Object_prototype (lit "constructor")), m).
Proof.
  intros c m.
  assert (Hn : new_CookiesManager (Some (lit "constructor=1")) = Return m)
    by (vm_compute; reflexivity).
  assert (Ho : own (_queue m) !! lit "constructor" = None) by reflexivity.
  assert (Hi : fst (incoming (lit "constructor") m) = Return (Instance c))
    by (vm_compute; reflexivity).
  split; [exact Hn|]. split; [exact Ho|]. split; [exact Hi|].
  exact (proj1 (get_finds_inherited_constructor None m Ho)).
Defined.

(** C9, where the code departs from it. [queue(c)] for a cookie named
    [__proto__] creates no property: the assignment makes [c] the prototype
    of the queue object. [hasQueued('__proto__')] is then true, and it is
    still true after [unqueue('__proto__')], which finds no own property to
    delete and leaves the manager as [queue] left it. *)
Theorem unqueue_leaves_proto_cookie (cookie : Cookie) (m : CookiesManager) :
  _name cookie = lit "__proto__" ->
  own (_queue m) !! lit "__proto__" = None ->
  let queued_m := snd (queue cookie m) in
  let m' := snd (unqueue (lit "__proto__") queued_m) in
  hasQueued (lit "__proto__") queued_m = (Return true, queued_m)
  /\ unqueue (lit "__proto__") queued_m = (Return tt, queued_m)
  /\ hasQueued (lit "__proto__") m' = (Return true, m')
  /\ fst (queued (lit "__proto__") m') = Return (Instance cookie)
  /\ own (_queue m') = own (_queue m)
  /\ prototype (_queue m') = Some cookie.
Proof.
  intros Hname Hown. cbv zeta.
  assert (Hq : snd (queue cookie m)
               = with_queue (mkObject (own (_queue m)) (Some cookie)) m).
  { unfold queue, modify. cbn [snd]. unfold assign.
    rewrite Hname, Hown, decide_True by reflexivity. reflexivity. }
  assert (Hu : unqueue (lit "__proto__") (snd (queue cookie m))
               = (Return tt, snd (queue cookie m))).
  { rewrite Hq. unfold unqueue, modify, remove, with_queue.
    cbn [_queue _incoming own prototype].
    rewrite delete_id by assumption. reflexivity. }
  assert (Hp : property (_queue (snd (queue cookie m))) (lit "__proto__")
               = Instance cookie).
  { unfold queue, modify. cbn [snd with_queue _queue]. rewrite <- Hname.
    apply property_assign. }
  rewrite Hu. cbn [snd]. unfold hasQueued, queued, read. cbn [fst].
  rewrite Hp. repeat split; rewrite Hq; reflexivity.
Qed.

Lemma unqueue_leaves_proto_cookie_witness :
  let c := mkCookie (lit "__proto__") (lit "v") (Int 0) (lit "/") (lit "")
                    false false true NONE in
  new_CookiesManager None = Return fresh_manager
  /\ _name c = lit "__proto__"
  /\ own (_queue fresh_manager) !! lit "__proto__" = None
  /\ fst (hasQueued (lit "__proto__")
            (snd (unqueue (lit "__proto__") (snd (queue c fresh_manager)))))
     = Return true
  /\ fst (hasQueued (lit "__proto__") fresh_manager) = Return false.
Proof.
  intros c.
  assert (Hn : new_CookiesManager None = Return fresh_manager)
    by (vm_compute; reflexivity).
  assert (H1 : _name c = lit "__proto__") by reflexivity.
  assert (H2 : own (_queue fresh_manager) !! lit "__proto__" = None)
    by reflexivity.
  split; [exact Hn|]. split; [exact H1|]. split; [exact H2|].
  destruct (unqueue_leaves_proto_cookie c fresh_manager H1 H2)
    as (_ & _ & H & _).
  split; [rewrite H; reflexivity | reflexivity].
Defined.

Lemma invoke_incoming c m :
  is_parseIncomingCookies c = false -> _incoming (invoke c m) = _incoming m.
Proof.
  destruct c; try discriminate; intros _; cbn [invoke];
    try reflexivity.
  rewrite get_eq. reflexivity.
Qed.

Lemma store_fragment_returns f m :
  returns (parseCookie f) = true ->
  store_fragment f m = (Return tt, with_incoming (store (_incoming m) f) m).
Proof.
  unfold store_fragment, store, bind, lift, modify, ret.
  destruct (parseCookie f) as [[c|]|e]; try discriminate; intros _;
    [reflexivity|]. destruct m; reflexivity.
Qed.

Lemma forEach_returns fragments m :
  Forall (fun f => returns (parseCookie f) = true) fragments ->
  forEach store_fragment fragments m =
  (Return tt, with_incoming (foldl store (_incoming m) fragments) m).
Proof.
  intros Hf. revert m.
  induction Hf as [|f fragments Hf _ IH]; intros m.
  - destruct m; reflexivity.
  - cbn [forEach foldl]. unfold bind at 1.
    rewrite store_fragment_returns by assumption. rewrite IH. reflexivity.
Qed.

Lemma forEach_throws fragments m :
  Exists (fun f => returns (parseCookie f) = false) fragments ->
  fst (forEach store_fragment fragments m) = Throw URIError.
Proof.
  intros Hf. revert m.
  induction fragments as [|f fragments IH]; intros m;
    [apply Exists_nil in Hf as []|].
  cbn [forEach]. unfold bind at 1.
  destruct (returns (parseCookie f)) eqn:Hr.
  - rewrite store_fragment_returns by assumption. apply IH.
    apply Exists_cons in Hf as [Hf|Hf]; [congruence | assumption].
  - unfold store_fragment, bind, lift.
    rewrite (parseCookie_throws f Hr). reflexivity.
Qed.

Lemma fragments_return_or_throw fragments :
  Forall (fun f => returns (parseCookie f) = true) fragments
  \/ Exists (fun f => returns (parseCookie f) = false) fragments.
Proof.
  induction fragments as [|f fragments [IH|IH]].
  - left. constructor.
  - destruct (returns (parseCookie f)) eqn:Hf.
    + left. constructor; assumption.
    + right. apply Exists_cons_hd. assumption.
  - right. apply Exists_cons_tl. assumption.
Qed.

(** C7, as amended. The constructor fills [incoming] from the header by
    calling [parseIncomingCookies], which is public and adds to [incoming]
    whenever it is called again; no other method of the manager changes
    [incoming]: after any sequence of calls of [parseCookie], [hasQueued],
    [queue], [unqueue], [incoming], [queued], [incomingCookies],
    [queuedCookies] and [get], on the manager just built or on any other,
    the mapping is the one before. *)
Theorem incoming_frame (header : option jsstring) (m0 : CookiesManager)
    (calls : list call) :
  new_CookiesManager header = Return m0 ->
  Forall (fun c => is_parseIncomingCookies c = false) calls ->
  m0 = mkManager (foldl store empty_object (split 59 (or_empty header)))
                 empty_object
  /\ (forall m,
        _incoming (foldl (fun m c => invoke c m) m calls) = _incoming m).
Proof.
  intros Hnew Hcalls. split.
  - unfold new_CookiesManager in Hnew.
    change (parseIncomingCookies (or_empty header))
      with (forEach store_fragment (split 59 (or_empty header))) in Hnew.
    destruct (fragments_return_or_throw (split 59 (or_empty header)))
      as [Hf|Hf].
    + rewrite forEach_returns in Hnew by assumption.
      injection Hnew as <-. reflexivity.
    + pose proof (forEach_throws _ fresh_manager Hf) as Ht.
      destruct (forEach store_fragment _ fresh_manager) as [[[]|e] m'];
        cbn [fst] in Ht; discriminate.
  - induction Hcalls as [|c calls Hc _ IH]; intros m; [reflexivity|].
    cbn [foldl]. rewrite IH. apply invoke_incoming, Hc.
Qed.

(** A manager built from an empty header has no incoming cookie; a later
    call of [parseIncomingCookies] gives it one. *)
Lemma parseIncomingCookies_mutates_incoming :
  new_CookiesManager (Some (lit "")) = Return fresh_manager
  /\ _incoming (invoke (Call_parseIncomingCookies (lit "a=1")) fresh_manager)
     <> _incoming fresh_manager.
Proof.
  split; [vm_compute; reflexivity|].
  intros Heq.
  assert (H1 : own (_incoming (invoke (Call_parseIncomingCookies (lit "a=1"))
                                 fresh_manager)) !! lit "a"
               = Some (new_Cookie (lit "a") (lit "1")))
    by (vm_compute; reflexivity).
  rewrite Heq in H1. discriminate H1.
Qed.

Lemma incoming_frame_witness :
  let m0 := mkManager
              (mkObject {[ lit "x" := new_Cookie (lit "x") (lit "old") ]}
                        None)
              empty_object in
  let calls := [Call_queue (new_Cookie (lit "x") (lit "new"));
                Call_queue (new_Cookie (lit "__proto__") (lit "p"));
                Call_get (lit "x") None; Call_hasQueued (lit "x");
                Call_unqueue (lit "x"); Call_parseCookie (lit "y=%")] in
  new_CookiesManager (Some (lit "x=old")) = Return m0
  /\ Forall (fun c => is_parseIncomingCookies c = false) calls
  /\ _incoming (foldl (fun m c => invoke c m) m0 calls) = _incoming m0.
Proof.
  intros m0 calls.
  assert (Hn : new_CookiesManager (Some (lit "x=old")) = Return m0)
    by (vm_compute; reflexivity).
  assert (Hc : Forall (fun c => is_parseIncomingCookies c = false) calls)
    by (repeat constructor).
  split; [assumption|]. split; [assumption|].
  exact (proj2 (incoming_frame (Some (lit "x=old")) m0 calls Hn Hc) m0).
Defined.

Lemma split_Forall (P : Z -> Prop) sep s :
  Forall P s -> Forall (Forall P) (split sep s).
Proof.
  induction 1 as [|c s Hc Hs IH]; [repeat constructor|].
  cbn [split]. destruct (c =? sep); [constructor; [constructor | exact IH]|].
  destruct (split sep s) as [|piece pieces];
    [repeat constructor; assumption|].
  inversion IH as [|? ? Hp Hps]; subst.
  constructor; [constructor; assumption | assumption].
Qed.

(** C8, as amended. [parseIncomingCookies] raises (a URIError, from
    [decodeURIComponent]) exactly when [parseCookie] raises on one of the
    fragments of the header, that is, on a malformed percent-escape; a
    fragment without [%] never does, so parsing a header without [%] never
    raises. When no fragment raises, every fragment
    is stored under the name of its cookie, in order, and a fragment whose
    decoded, left-trimmed name is empty is discarded without a trace. Parsing
    [; a=1;;] yields exactly one entry: [a], with value [1]. *)
Theorem parseIncomingCookies_tolerance :
  (forall h m,
     Forall (fun f => returns (parseCookie f) = true) (split 59 h) ->
     parseIncomingCookies h m =
     (Return tt, with_incoming (foldl store (_incoming m) (split 59 h)) m))
  /\ (forall h m,
        Exists (fun f => returns (parseCookie f) = false) (split 59 h) ->
        fst (parseIncomingCookies h m) = Throw URIError)
  /\ (forall f, Forall (fun c => c <> 37) f -> returns (parseCookie f) = true)
  /\ (forall h m,
        Forall (fun c => c <> 37) h ->
        fst (parseIncomingCookies h m) = Return tt)
  /\ (forall f acc,
        decodeURIComponent (trimLeft (name_part f)) = Return [] ->
        parseCookie f = Return None /\ store acc f = acc)
  /\ (forall f acc c,
        parseCookie f = Return (Some c) ->
        store acc f = assign (_name c) c acc
        /\ property (store acc f) (_name c) = Instance c)
  /\ parseIncomingCookies (lit "; a=1;;") fresh_manager =
     (Return tt,
      mkManager
        (mkObject {[ lit "a" := mkCookie (lit "a") (lit "1") (Int 0) (lit "/")
                                         (lit "") false false true NONE ]}
                  None)
        empty_object).
Proof.
  split; [|split; [|split; [|split; [|split; [|split]]]]].
  - intros h m. apply forEach_returns.
  - intros h m. apply forEach_throws.
  - intros f Hf. rewrite parseCookie_plain by assumption. reflexivity.
  - intros h m Hh.
    change (parseIncomingCookies h) with (forEach store_fragment (split 59 h)).
    rewrite forEach_returns; [reflexivity|].
    eapply Forall_impl; [apply (split_Forall _ 59 h Hh)|].
    intros f Hf. cbn beta in Hf.
    rewrite parseCookie_plain by assumption. reflexivity.
  - intros f acc Hn. unfold store. rewrite parseCookie_parts.
    unfold parseCookie_by_parts. rewrite Hn. split; reflexivity.
  - intros f acc c Hc. unfold store. rewrite Hc.
    split; [reflexivity | apply property_assign].
  - vm_compute. reflexivity.
Qed.

(** A header with a truncated escape: parsing raises, here and in the
    constructor, and what was stored before the bad fragment stays. *)
Lemma parseIncomingCookies_malformed_escape_throws :
  parseIncomingCookies (lit "%") fresh_manager = (Throw URIError, fresh_manager)
  /\ new_CookiesManager (Some (lit "a=1; b=%E0%A4%A")) = Throw URIError
  /\ parseIncomingCookies (lit "a=1; b=%E0%A4%A") fresh_manager
     = (Throw URIError,
        mkManager
          (mkObject {[ lit "a" := new_Cookie (lit "a") (lit "1") ]} None)
          empty_object).
Proof. vm_compute. repeat split. Qed.

(** * Further properties of the code *)

(** ** The cookie: expiry, frames, the string and its way back *)

Lemma Return_inj {A} (a b : A) : Return a = Return b -> a = b.
Proof. intros [= ->]. reflexivity. Qed.

Lemma with_expiresAt_same c : with_expiresAt (_expiresAt c) c = c.
Proof. destruct c; reflexivity. Qed.

Lemma before_app_sep sep a t :
  Forall (fun c => c <> sep) a ->
  before sep (a ++ sep :: t) = a /\ after sep (a ++ sep :: t) = t.
Proof.
  induction 1 as [|c a Hc _ [IHb IHa]].
  - cbn [app before after]. rewrite Z.eqb_refl. split; reflexivity.
  - cbn [app before after]. destruct (Z.eqb_spec c sep); [contradiction|].
    rewrite IHb, IHa. split; reflexivity.
Qed.

Lemma before_no_sep sep a :
  Forall (fun c => c <> sep) a -> before sep a = a /\ after sep a = [].
Proof.
  induction 1 as [|c a Hc _ [IHb IHa]]; [split; reflexivity|].
  cbn [before after]. destruct (Z.eqb_spec c sep); [contradiction|].
  rewrite IHb, IHa. split; reflexivity.
Qed.

(** A fragment [a=b] with no other [=]. *)
Lemma parseCookie_name_value a b :
  Forall (fun c => c <> 61) a -> Forall (fun c => c <> 61) b ->
  parseCookie (a ++ 61 :: b) =
  obind (decodeURIComponent (trimLeft a)) (fun name =>
  match name with
  | [] => Return None
  | _ :: _ =>
      obind (decodeURIComponent b) (fun value =>
      Return (Some (new_Cookie name value)))
  end).
Proof.
  intros Ha Hb. rewrite parseCookie_parts.
  unfold parseCookie_by_parts, name_part, value_part.
  destruct (before_app_sep 61 a b Ha) as [-> ->].
  destruct (before_no_sep 61 b Hb) as [-> _]. reflexivity.
Qed.

Lemma flatten_cons k payload segs :
  flatten ((k, payload) :: segs) = k ++ payload ++ flatten segs.
Proof.
  unfold flatten. cbn [map concat]. unfold seg_string at 1. cbn [fst snd].
  rewrite <- app_assoc. reflexivity.
Qed.

Lemma header_safe_parts s :
  header_safe s ->
  Forall (fun c => c <> 61) s /\ semicolon_free s /\
  Forall (fun c => c <> 37) s.
Proof.
  intros Hs. repeat split; (eapply Forall_impl; [exact Hs|]);
    intros x (? & ? & ?); assumption.
Qed.

Section CookieFurther.
Context {D : Dayjs}.

(** X1. [getMaxAge] never throws and never changes the cookie. It returns 0
    for a session cookie ([expiresAt] 0); otherwise it returns the number of
    seconds [dayjs] counts from now to the expiry when that number is
    positive, and 0 when it is zero, negative or NaN (an invalid expiry). So
    what it returns is never negative and never NaN. *)
Theorem getMaxAge_never_negative (now : Z) (c : Cookie) :
  getMaxAge now c =
  (Return (if is_zero (_expiresAt c) then Int 0
           else match dayjs_diff_seconds (_expiresAt c) (Int now) with
                | Int d => Int (Z.max 0 d)
                | NaN => Int 0
                end), c)
  /\ exists z, fst (getMaxAge now c) = Return (Int z) /\ 0 <= z.
Proof.
  assert (H : getMaxAge now c =
              (Return (if is_zero (_expiresAt c) then Int 0
                       else match dayjs_diff_seconds (_expiresAt c) (Int now)
                            with
                            | Int d => Int (Z.max 0 d)
                            | NaN => Int 0
                            end), c)).
  { rewrite getMaxAge_eq. unfold max_age.
    destruct (is_zero (_expiresAt c)); [reflexivity|].
    destruct (dayjs_diff_seconds (_expiresAt c) (Int now)) as [d|];
      cbn [is_positive]; [|reflexivity].
    destruct (Z.ltb_spec 0 d); do 3 f_equal; lia. }
  split; [exact H|]. rewrite H. cbn [fst].
  destruct (is_zero (_expiresAt c)); [exists 0; split; [reflexivity | lia]|].
  destruct (dayjs_diff_seconds (_expiresAt c) (Int now)) as [d|].
  - exists (Z.max 0 d). split; [reflexivity | lia].
  - exists 0. split; [reflexivity | lia].
Qed.

(** X2. [hasExpired] answers true for every session cookie ([expiresAt] 0),
    as it does for a cookie whose expiry is not in the future; it answers
    false only when [dayjs] counts a positive number of seconds up to a
    non-zero expiry. It leaves the cookie as it was. *)
Theorem hasExpired_session_or_past (now : Z) (c : Cookie) :
  hasExpired now c =
  (Return (is_zero (_expiresAt c)
           || negb (is_positive
                      (dayjs_diff_seconds (_expiresAt c) (Int now)))), c).
Proof.
  unfold hasExpired. rewrite bind_getMaxAge. unfold ret, max_age.
  destruct (is_zero (_expiresAt c)); [reflexivity|].
  destruct (dayjs_diff_seconds (_expiresAt c) (Int now)) as [z|];
    cbn [is_positive orb negb]; [|reflexivity].
  destruct (Z.ltb_spec 0 z); cbn [negb is_zero]; [|reflexivity].
  destruct (Z.eqb_spec z 0); [lia | reflexivity].
Qed.

Lemma setExpire_state t c :
  snd (setExpire t c) = c \/ snd (setExpire t c) = with_expiresAt t c.
Proof.
  unfold setExpire, throw, modify. destruct (_ && _); [left | right];
    reflexivity.
Qed.

(** The cookie [toString] leaves. *)
Lemma toString_state now c :
  snd (toString now c) = c
  \/ (_value c = [] /\
      snd (toString now c)
      = with_expiresAt (dayjs_subtract_years 13 (Int now)) c).
Proof.
  destruct (_value c) as [|v vs] eqn:Hv.
  - rewrite toString_without_value by assumption.
    destruct (emitted c (_name c)); [|left; reflexivity].
    rewrite expire_eq. cbv zeta. destruct (_ && _); [left; reflexivity|].
    right. split; reflexivity.
  - left. rewrite toString_with_value by (rewrite Hv; discriminate).
    reflexivity.
Qed.

(** One call: the name stays, and a call that is no attribute setter
    changes [expiresAt] at most. *)
Lemma cookie_invoke_frame k c :
  exists t,
    (assigns_attribute k = false ->
     cookie_invoke k c = with_expiresAt t c)
    /\ _name (cookie_invoke k c) = _name c.
Proof.
  destruct k; cbn [cookie_invoke assigns_attribute];
    try (exists (_expiresAt c); split;
         [intros _; rewrite with_expiresAt_same; reflexivity | reflexivity]);
    try (exists (_expiresAt c); split; [discriminate | reflexivity]).
  - destruct (setExpire_state timestamp c) as [-> | ->];
      [exists (_expiresAt c) | exists timestamp];
      rewrite ?with_expiresAt_same; split; reflexivity.
  - unfold expire. cbv zeta.
    destruct (setExpire_state (dayjs_subtract_years 13 (Int now)) c)
      as [-> | ->];
      [exists (_expiresAt c)
      | exists (dayjs_subtract_years 13 (Int now))];
      rewrite ?with_expiresAt_same; split; reflexivity.
  - unfold forever. cbv zeta.
    destruct (setExpire_state (dayjs_add_years 13 (Int now)) c)
      as [-> | ->];
      [exists (_expiresAt c) | exists (dayjs_add_years 13 (Int now))];
      rewrite ?with_expiresAt_same; split; reflexivity.
  - rewrite getMaxAge_eq. exists (_expiresAt c).
    rewrite with_expiresAt_same; split; reflexivity.
  - unfold hasExpired. rewrite bind_getMaxAge. exists (_expiresAt c).
    rewrite with_expiresAt_same; split; reflexivity.
  - destruct (toString_state now c) as [-> | [_ ->]];
      [exists (_expiresAt c)
      | exists (dayjs_subtract_years 13 (Int now))];
      rewrite ?with_expiresAt_same; split; reflexivity.
Qed.

(** X3. No public method of a cookie changes its name: after any sequence
    of calls of the setters, [expire], [forever], the getters, [getMaxAge],
    [hasExpired] and [toString], whether they return or throw, the name is
    the one given to the constructor. *)
Theorem name_never_changes (calls : list cookie_call) (c : Cookie) :
  _name (foldl (fun c k => cookie_invoke k c) c calls) = _name c.
Proof.
  revert c. induction calls as [|k calls IH]; intros c; [reflexivity|].
  cbn [foldl]. rewrite IH.
  destruct (cookie_invoke_frame k c) as (t & _ & Hn). exact Hn.
Qed.

(** X4. Only [setValue], [setPath], [setDomain], [setSecure], [setHttpOnly],
    [setRaw] and [setSameSite] assign the value and the attributes: a
    sequence of calls of the other methods ([setExpire], [expire],
    [forever], the getters, [getMaxAge], [hasExpired], [toString]) leaves
    every field but [expiresAt] as it was. *)
Theorem only_setters_assign_attributes (calls : list cookie_call)
    (c : Cookie) :
  Forall (fun k => assigns_attribute k = false) calls ->
  exists t,
    foldl (fun c k => cookie_invoke k c) c calls = with_expiresAt t c.
Proof.
  intros Hcalls. revert c.
  induction Hcalls as [|k calls Hk _ IH]; intros c.
  - exists (_expiresAt c). rewrite with_expiresAt_same. reflexivity.
  - cbn [foldl]. destruct (cookie_invoke_frame k c) as (t & Ht & _).
    rewrite (Ht Hk). destruct (IH (with_expiresAt t c)) as (t' & ->).
    exists t'. reflexivity.
Qed.

(** X5. For a raw cookie with a non-empty value [toString] never throws and
    leaves the cookie as it was; the string is the name, [=], the value,
    then [; Max-Age=0] alone for a session cookie ([expiresAt] 0) and
    otherwise [; expires=] with the HTTP-date of the expiry followed by
    [; Max-Age=] with the seconds [getMaxAge] returns, then the
    attributes. *)
Theorem raw_cookie_wire_format (now : Z) (c : Cookie) :
  _raw c = true -> _value c <> [] ->
  toString now c =
  (Return (_name c ++ lit "=" ++ _value c
           ++ (if is_zero (_expiresAt c) then lit "; Max-Age=0"
               else lit "; expires=" ++ Redate_responseFormat (_expiresAt c)
                    ++ lit "; Max-Age="
                    ++ number_to_string (max_age now c))
           ++ flatten (attribute_segments c)), c)
  /\ fst (getMaxAge now c) = Return (max_age now c).
Proof.
  intros Hraw Hv. split; [|rewrite getMaxAge_eq; reflexivity].
  rewrite toString_with_value by assumption.
  unfold emitted. rewrite Hraw. cbn [obind]. do 4 f_equal.
  rewrite flatten_app. unfold value_segments, max_age.
  destruct (is_zero (_expiresAt c)); cbn [negb app].
  - rewrite flatten_cons. reflexivity.
  - rewrite !flatten_cons, <- !app_assoc. reflexivity.
Qed.

(** X6. [toString] throws exactly in three cases: the name cannot be
    written (the cookie is not raw and [encodeURIComponent] rejects the
    name); the value is not empty and cannot be written; the value is empty
    and [expire] throws. *)
Theorem toString_throws_iff (now : Z) (c : Cookie) :
  returns (fst (toString now c)) = false <->
  returns (emitted c (_name c)) = false
  \/ (_value c <> [] /\ returns (emitted c (_value c)) = false)
  \/ (_value c = [] /\ returns (fst (expire now c)) = false).
Proof.
  destruct (_value c) as [|v0 vs] eqn:Hv.
  - rewrite toString_without_value by assumption.
    destruct (emitted c (_name c)) as [n'|e]; cbn [fst returns].
    2:{ split; [left; reflexivity | reflexivity]. }
    destruct (expire now c) as [[[]|e] c']; cbn [fst returns].
    + split; [discriminate|]. intros [H | [[H _] | [_ H]]];
        congruence.
    + split; [|reflexivity]. intros _. right; right. split; reflexivity.
  - rewrite toString_with_value by (rewrite Hv; discriminate).
    rewrite Hv. cbn [fst].
    destruct (emitted c (_name c)) as [n'|e]; cbn [obind returns].
    2:{ split; [left; reflexivity | reflexivity]. }
    destruct (emitted c (v0 :: vs)) as [v'|e]; cbn [obind returns].
    + split; [discriminate|]. intros [H | [[_ H] | [H _]]]; congruence.
    + split; [|reflexivity]. intros _. right; left.
      split; [discriminate | reflexivity].
Qed.

(** X7. Calling [toString] again at the same instant gives the same
    outcome and leaves the cookie the first call left: the forced expiry of
    a cookie without value is written once. *)
Theorem toString_twice (now : Z) (c : Cookie) :
  toString now (snd (toString now c)) = toString now c.
Proof.
  destruct (_value c) as [|v0 vs] eqn:Hv.
  - rewrite (toString_without_value now c Hv).
    destruct (emitted c (_name c)) as [n'|e] eqn:Hn; cbn [snd].
    2:{ rewrite (toString_without_value now c Hv), Hn. reflexivity. }
    rewrite expire_eq. cbv zeta.
    destruct (_ && _) eqn:Hcond; cbn [snd].
    + rewrite (toString_without_value now c Hv), Hn, expire_eq. cbv zeta.
      rewrite Hcond. reflexivity.
    + rewrite toString_without_value by assumption.
      unfold emitted in *. cbn [_raw _name with_expiresAt] in *. rewrite Hn.
      rewrite expire_eq. cbv zeta. rewrite Hcond. reflexivity.
  - rewrite (toString_with_value now c) by (rewrite Hv; discriminate).
    cbn [snd].
    rewrite (toString_with_value now c) by (rewrite Hv; discriminate).
    reflexivity.
Qed.

(** What follows the name and the value opens with a semicolon. *)
Lemma value_segments_open now c attrs :
  exists rest, flatten (value_segments now c ++ attrs) = 59 :: rest.
Proof.
  unfold value_segments. destruct (negb _); cbn [app];
    rewrite flatten_cons; eexists; reflexivity.
Qed.

Lemma deletion_segments_open c attrs :
  exists rest, flatten (deletion_segments c ++ attrs) = 59 :: rest.
Proof.
  unfold deletion_segments. cbn [app]. rewrite flatten_cons.
  eexists; reflexivity.
Qed.

(** The first fragment of the string of a cookie is the written name, [=]
    and the written value. *)
Lemma toString_first_fragment now c s :
  fst (toString now c) = Return s ->
  exists n' v',
    emitted c (_name c) = Return n' /\
    (_value c = [] /\ v' = [] \/ emitted c (_value c) = Return v') /\
    (semicolon_free n' -> semicolon_free v' ->
     before 59 s = n' ++ 61 :: v').
Proof.
  intros Hs. destruct (_value c) as [|v0 vs] eqn:Hv.
  - rewrite toString_without_value in Hs by assumption.
    destruct (emitted c (_name c)) as [n'|e]; [|discriminate].
    destruct (expire now c) as [[[]|e] c']; [|discriminate].
    cbn [fst] in Hs. apply Return_inj in Hs. subst s.
    exists n', []. split; [reflexivity|]. split; [left; split; reflexivity|].
    intros Hn _.
    destruct (deletion_segments_open c' (attribute_segments c')) as [rest ->].
    change (n' ++ lit "=" ++ 59 :: rest) with (n' ++ [61] ++ 59 :: rest).
    rewrite app_assoc.
    apply before_app_sep. apply Forall_app_2; [assumption|].
    repeat constructor; discriminate.
  - rewrite toString_with_value in Hs by (rewrite Hv; discriminate).
    rewrite Hv in Hs. cbn [fst] in Hs.
    destruct (emitted c (_name c)) as [n'|e]; [|discriminate].
    destruct (emitted c (v0 :: vs)) as [v'|e]; [|discriminate].
    cbn [obind] in Hs. apply Return_inj in Hs. subst s.
    exists n', v'. split; [reflexivity|]. split; [right; reflexivity|].
    intros Hn Hv'.
    destruct (value_segments_open now c (attribute_segments c)) as [rest ->].
    change (n' ++ lit "=" ++ v' ++ 59 :: rest)
      with (n' ++ (61 :: v') ++ 59 :: rest).
    rewrite app_assoc.
    apply before_app_sep. apply Forall_app_2; [assumption|].
    constructor; [discriminate | assumption].
Qed.

(** X8. The string of a cookie that is not raw is read back: when
    [toString] returns, [parseCookie] applied to its first fragment (the text
    before the first [;], which is what a client sends back) returns a
    cookie with the very name and value, whatever code units they hold, the
    name being non-empty. *)
Theorem encoded_cookie_is_read_back (now : Z) (c : Cookie) (s : jsstring) :
  _raw c = false -> _name c <> [] ->
  wf_string (_name c) -> wf_string (_value c) ->
  fst (toString now c) = Return s ->
  parseCookie (before 59 s)
  = Return (Some (mkCookie (_name c) (_value c) (Int 0) (lit "/") (lit "")
                           false false true NONE)).
Proof.
  intros Hraw Hne Hwn Hwv Hs.
  destruct (toString_first_fragment now c s Hs) as (n' & v' & Hn & Hv & Hb).
  unfold emitted in Hn, Hv. rewrite Hraw in Hn, Hv.
  pose proof (encode_chars _ Hwn _ Hn) as Hcn.
  assert (Hv' : encodeURIComponent (_value c) = Return v').
  { destruct Hv as [[-> ->] | Hv]; [reflexivity | assumption]. }
  pose proof (encode_chars _ Hwv _ Hv') as Hcv.
  rewrite Hb by (eapply uri_chars_no; [reflexivity | eassumption]).
  rewrite parseCookie_name_value
    by (eapply uri_chars_no; [reflexivity | eassumption]).
  rewrite trimLeft_uri_chars by assumption.
  rewrite (decode_encode _ Hwn _ Hn), (decode_encode _ Hwv _ Hv').
  cbn [obind]. destruct (_name c); [contradiction | reflexivity].
Qed.

(** X9. The string of a raw cookie is read back when the name and the value
    hold no [=], no [;] and no [%], and the name is not empty and does not
    open with whitespace: [parseCookie] applied to the first fragment of
    what [toString] returns gives a cookie with the very name and value. *)
Theorem raw_cookie_is_read_back (now : Z) (c : Cookie) (s : jsstring) :
  _raw c = true -> _name c <> [] -> trimLeft (_name c) = _name c ->
  header_safe (_name c) -> header_safe (_value c) ->
  fst (toString now c) = Return s ->
  parseCookie (before 59 s)
  = Return (Some (mkCookie (_name c) (_value c) (Int 0) (lit "/") (lit "")
                           false false true NONE)).
Proof.
  intros Hraw Hne Htrim Hsn Hsv Hs.
  destruct (header_safe_parts _ Hsn) as (Hn1 & Hn2 & Hn3).
  destruct (header_safe_parts _ Hsv) as (Hv1 & Hv2 & Hv3).
  destruct (toString_first_fragment now c s Hs) as (n' & v' & Hn & Hv & Hb).
  unfold emitted in Hn, Hv. rewrite Hraw in Hn, Hv. injection Hn as <-.
  assert (Hv' : v' = _value c).
  { destruct Hv as [[-> ->] | [= ->]]; reflexivity. }
  subst v'. rewrite Hb by assumption.
  rewrite parseCookie_name_value by assumption.
  rewrite Htrim, !decodeURIComponent_plain by assumption.
  cbn [obind]. destruct (_name c); [contradiction | reflexivity].
Qed.

End CookieFurther.

(** Witnesses of the cookie properties, on the UTC calendar. *)

Lemma only_setters_assign_attributes_witness :
  let calls := [Do_toString an_instant; Do_forever an_instant;
                Do_hasExpired an_instant; Do_setExpire NaN;
                Do_getMaxAge an_instant] in
  Forall (fun k => assigns_attribute k = false) calls
  /\ exists t,
       foldl (fun c k => cookie_invoke (D := utc_dayjs) k c)
             session_cookie calls
       = with_expiresAt t session_cookie.
Proof.
  intros calls.
  assert (Hc : Forall (fun k => assigns_attribute k = false) calls)
    by (repeat constructor).
  split; [exact Hc|].
  exact (only_setters_assign_attributes (D := utc_dayjs) calls
           session_cookie Hc).
Defined.

Lemma raw_cookie_wire_format_witness :
  _raw app_cookie = true /\ _value app_cookie <> []
  /\ toString (D := utc_dayjs) an_instant app_cookie
     = (Return (lit "k=v; expires=Tue, 14 Nov 2023 22:15:00 GMT; Max-Age=100; path=/app; domain=example.com; secure; httponly; samesite=strict"),
        app_cookie).
Proof.
  assert (H1 : _raw app_cookie = true) by reflexivity.
  assert (H2 : _value app_cookie <> []) by discriminate.
  split; [exact H1|]. split; [exact H2|].
  exact (proj1 (raw_cookie_wire_format (D := utc_dayjs) an_instant
                  app_cookie H1 H2)).
Defined.

Lemma encoded_cookie_is_read_back_witness :
  _raw encoded_cookie = false /\ _name encoded_cookie <> []
  /\ wf_string (_name encoded_cookie) /\ wf_string (_value encoded_cookie)
  /\ fst (toString (D := utc_dayjs) an_instant encoded_cookie)
     = Return (lit "%20%C3%A9%3D=a%3Db%3B%20c%25; Max-Age=0; path=/; httponly; samesite=lax")
  /\ parseCookie (lit "%20%C3%A9%3D=a%3Db%3B%20c%25")
     = Return (Some (mkCookie [32; 233; 61] (lit "a=b; c%") (Int 0) (lit "/")
                              (lit "") false false true NONE)).
Proof.
  assert (H1 : _raw encoded_cookie = false) by reflexivity.
  assert (H2 : _name encoded_cookie <> []) by discriminate.
  assert (H3 : wf_string (_name encoded_cookie))
    by (apply wf_string_check; reflexivity).
  assert (H4 : wf_string (_value encoded_cookie))
    by (apply wf_string_check; reflexivity).
  assert (H5 : fst (toString (D := utc_dayjs) an_instant encoded_cookie)
               = Return (lit "%20%C3%A9%3D=a%3Db%3B%20c%25; Max-Age=0; path=/; httponly; samesite=lax"))
    by (vm_compute; reflexivity).
  repeat (split; [assumption|]).
  exact (encoded_cookie_is_read_back (D := utc_dayjs) an_instant
           encoded_cookie _ H1 H2 H3 H4 H5).
Defined.

Lemma raw_cookie_is_read_back_witness :
  _raw app_cookie = true /\ _name app_cookie <> []
  /\ trimLeft (_name app_cookie) = _name app_cookie
  /\ header_safe (_name app_cookie) /\ header_safe (_value app_cookie)
  /\ parseCookie
       (before 59
          (lit "k=v; expires=Tue, 14 Nov 2023 22:15:00 GMT; Max-Age=100; path=/app; domain=example.com; secure; httponly; samesite=strict"))
     = Return (Some (mkCookie (lit "k") (lit "v") (Int 0) (lit "/") (lit "")
                              false false true NONE)).
Proof.
  assert (H1 : _raw app_cookie = true) by reflexivity.
  assert (H2 : _name app_cookie <> []) by discriminate.
  assert (H3 : trimLeft (_name app_cookie) = _name app_cookie)
    by reflexivity.
  assert (H4 : header_safe (_name app_cookie))
    by (repeat constructor; discriminate).
  assert (H5 : header_safe (_value app_cookie))
    by (repeat constructor; discriminate).
  repeat (split; [assumption|]).
  apply (raw_cookie_is_read_back (D := utc_dayjs) an_instant app_cookie
           _ H1 H2 H3 H4 H5).
  vm_compute. reflexivity.
Defined.

(** ** The manager: what a fragment becomes *)

Lemma parseCookie_value f c :
  parseCookie f = Return (Some c) ->
  _name c <> []
  /\ decodeURIComponent (trimLeft (name_part f)) = Return (_name c)
  /\ decodeURIComponent (value_part f) = Return (_value c)
  /\ c = new_Cookie (_name c) (_value c).
Proof.
  rewrite parseCookie_parts. unfold parseCookie_by_parts.
  destruct (decodeURIComponent (trimLeft (name_part f)))
    as [[|n name]|e]; cbn [obind]; try discriminate.
  destruct (decodeURIComponent (value_part f)) as [v|e];
    cbn [obind]; try discriminate.
  intros [= <-]. cbn [new_Cookie _name _value]. repeat split. discriminate.
Qed.

(** X10. A cookie [parseCookie] returns has a non-empty name, which is the
    decoded text before the first [=] of the fragment without its leading
    whitespace; its value is the decoded text between the first and the
    second [=]; and every other field has the default of the constructor
    (session expiry, path [/], no domain, not secure, not HTTP-only, raw,
    no same-site policy). *)
Theorem parsed_cookie_has_name_and_defaults (fragment : jsstring)
    (c : Cookie) :
  parseCookie fragment = Return (Some c) ->
  _name c <> []
  /\ decodeURIComponent (trimLeft (name_part fragment)) = Return (_name c)
  /\ decodeURIComponent (value_part fragment) = Return (_value c)
  /\ c = mkCookie (_name c) (_value c) (Int 0) (lit "/") (lit "")
                  false false true NONE.
Proof. apply parseCookie_value. Qed.

Lemma parsed_cookie_has_name_and_defaults_witness :
  parseCookie (lit " a%20b=c%3D=d") = Return (Some (new_Cookie (lit "a b") (lit "c=")))
  /\ decodeURIComponent (trimLeft (name_part (lit " a%20b=c%3D=d")))
     = Return (lit "a b")
  /\ decodeURIComponent (value_part (lit " a%20b=c%3D=d"))
     = Return (lit "c=").
Proof.
  assert (H : parseCookie (lit " a%20b=c%3D=d")
              = Return (Some (new_Cookie (lit "a b") (lit "c="))))
    by (vm_compute; reflexivity).
  split; [exact H|].
  destruct (parsed_cookie_has_name_and_defaults _ _ H) as (_ & Hn & Hv & _).
  split; [exact Hn | exact Hv].
Defined.

Lemma trimLeft_blank s : blank s -> trimLeft s = [].
Proof.
  induction 1 as [|c s Hc _ IH]; [reflexivity|]. cbn [trimLeft].
  rewrite Hc. exact IH.
Qed.

Lemma parseCookie_blank f : blank (name_part f) -> parseCookie f = Return None.
Proof.
  intros Hb. rewrite parseCookie_parts. unfold parseCookie_by_parts.
  rewrite trimLeft_blank by assumption. reflexivity.
Qed.

(** X11. A fragment whose text before the first [=] is empty or only
    whitespace gives no cookie, and [parseCookie] returns [null] without
    looking at the rest: a malformed escape after the [=] does not make it
    throw. *)
Theorem blank_name_is_dropped (fragment : jsstring) :
  blank (name_part fragment) ->
  parseCookie fragment = Return None
  /\ forall rest, parseCookie (name_part fragment ++ 61 :: rest) = Return None.
Proof.
  intros Hb. split; [apply parseCookie_blank; assumption|].
  intros rest. apply parseCookie_blank.
  unfold name_part in *.
  assert (Hs : forall a t, blank a -> before 61 (a ++ 61 :: t) = a).
  { intros a t Ha. apply before_app_sep.
    eapply Forall_impl; [exact Ha|]. intros x Hx ->. discriminate Hx. }
  rewrite Hs; assumption.
Qed.

Lemma blank_name_is_dropped_witness :
  blank (name_part (lit "  =v"))
  /\ parseCookie (lit "  =v") = Return None
  /\ parseCookie (lit "  =%") = Return None.
Proof.
  assert (H : blank (name_part (lit "  =v")))
    by (repeat (constructor; [reflexivity|]); constructor).
  split; [exact H|].
  destruct (blank_name_is_dropped _ H) as [H1 H2].
  split; [exact H1 | exact (H2 (lit "%"))].
Defined.

Section ParsedCookie.
Context {D : Dayjs}.

(** X12. A cookie read by [parseCookie] is written back raw: with a
    non-empty value, [toString] never throws on it, leaves it as it was and
    returns the decoded name, [=], the decoded value and
    [; Max-Age=0; path=/], so nothing of what was decoded is encoded
    again. *)
Theorem parsed_cookie_is_written_raw (now : Z) (fragment : jsstring)
    (c : Cookie) :
  parseCookie fragment = Return (Some c) -> _value c <> [] ->
  toString now c
  = (Return (_name c ++ lit "=" ++ _value c ++ lit "; Max-Age=0; path=/"), c).
Proof.
  intros Hc Hv. destruct (parseCookie_value _ _ Hc) as (_ & _ & _ & Heq).
  revert Hv. rewrite Heq. cbn [new_Cookie _name _value].
  generalize (_name c) (_value c). intros n v Hv.
  rewrite toString_with_value by exact Hv. reflexivity.
Qed.

End ParsedCookie.

Lemma parsed_cookie_is_written_raw_witness :
  parseCookie (lit "a%3Bb=%3D") = Return (Some (new_Cookie (lit "a;b") (lit "=")))
  /\ toString (D := utc_dayjs) an_instant (new_Cookie (lit "a;b") (lit "="))
     = (Return (lit "a;b==; Max-Age=0; path=/"),
        new_Cookie (lit "a;b") (lit "=")).
Proof.
  assert (H : parseCookie (lit "a%3Bb=%3D")
              = Return (Some (new_Cookie (lit "a;b") (lit "="))))
    by (vm_compute; reflexivity).
  split; [exact H|].
  apply (parsed_cookie_is_written_raw (D := utc_dayjs) an_instant _ _ H).
  discriminate.
Defined.

(** ** The manager: a header, fragment by fragment *)

Lemma split_nonempty sep s : split sep s <> [].
Proof.
  destruct s as [|c s]; [discriminate|]. cbn [split].
  destruct (c =? sep); [discriminate|]. destruct (split sep s); discriminate.
Qed.

Lemma split_app sep a b :
  split sep (a ++ sep :: b) = split sep a ++ split sep b.
Proof.
  induction a as [|c a IH].
  - cbn [app split]. rewrite Z.eqb_refl. reflexivity.
  - cbn [app split]. rewrite IH. destruct (c =? sep); [reflexivity|].
    pose proof (split_nonempty sep a) as Hne.
    destruct (split sep a); [contradiction | reflexivity].
Qed.

Lemma split_first sep s : exists pieces, split sep s = before sep s :: pieces.
Proof. destruct (split_head sep s) as (pieces & H & _). eauto. Qed.

Lemma forEach_app {S A} (f : A -> M S unit) l1 l2 s :
  forEach f (l1 ++ l2) s = bind (forEach f l1) (fun _ => forEach f l2) s.
Proof.
  revert s. induction l1 as [|x l1 IH]; intros s; [reflexivity|].
  cbn [app forEach]. unfold bind.
  destruct (f x s) as [[[]|e] s']; [|reflexivity].
  rewrite IH. reflexivity.
Qed.

Lemma parseIncomingCookies_fragments h :
  parseIncomingCookies h = forEach store_fragment (split 59 h).
Proof. reflexivity. Qed.

(** X13. Parsing two headers joined by [;] is parsing the first and then,
    unless that threw, the second: [parseIncomingCookies] can be fed a
    header piece by piece, cut at any [;]. *)
Theorem parseIncomingCookies_concat (h1 h2 : jsstring) (m : CookiesManager) :
  parseIncomingCookies (h1 ++ 59 :: h2) m
  = (parseIncomingCookies h1 ;;; parseIncomingCookies h2) m.
Proof.
  rewrite !parseIncomingCookies_fragments, split_app. apply forEach_app.
Qed.

Lemma store_fragment_queue f m : _queue (snd (store_fragment f m)) = _queue m.
Proof.
  unfold store_fragment, bind, lift, modify, ret.
  destruct (parseCookie f) as [[c|]|e]; reflexivity.
Qed.

Lemma forEach_store_queue fragments m :
  _queue (snd (forEach store_fragment fragments m)) = _queue m.
Proof.
  revert m. induction fragments as [|f fragments IH]; intros m; [reflexivity|].
  cbn [forEach]. unfold bind.
  pose proof (store_fragment_queue f m) as Hq.
  destruct (store_fragment f m) as [[[]|e] m']; cbn [snd] in *.
  - rewrite IH. exact Hq.
  - exact Hq.
Qed.

(** X14. [parseIncomingCookies] never touches the queue, whether it returns
    or throws: what [queuedCookies] returns afterwards is what it returned
    before. *)
Theorem parseIncomingCookies_keeps_queue (h : jsstring) (m : CookiesManager) :
  fst (queuedCookies (snd (parseIncomingCookies h m)))
  = fst (queuedCookies m).
Proof.
  unfold queuedCookies, read. cbn [fst]. f_equal.
  rewrite parseIncomingCookies_fragments. apply forEach_store_queue.
Qed.

(** X15. [parseIncomingCookies] stops at the first fragment [parseCookie]
    rejects and keeps what it stored before: when a header parses, the same
    header followed by [;] and a text whose first fragment has a malformed
    escape throws a URIError, leaves the manager the accepted header gave,
    and reads nothing of what follows the bad fragment. *)
Theorem parseIncomingCookies_stops_at_bad_fragment (h1 h2 : jsstring)
    (m m1 : CookiesManager) :
  parseIncomingCookies h1 m = (Return tt, m1) ->
  returns (parseCookie (before 59 h2)) = false ->
  parseIncomingCookies (h1 ++ 59 :: h2) m = (Throw URIError, m1).
Proof.
  rewrite !parseIncomingCookies_fragments. intros H1 H2.
  rewrite split_app, forEach_app. unfold bind at 1. rewrite H1.
  destruct (split_first 59 h2) as [pieces ->].
  cbn [forEach]. unfold bind at 1.
  unfold store_fragment at 1, bind, lift.
  rewrite (parseCookie_throws _ H2). reflexivity.
Qed.

Lemma parseIncomingCookies_stops_at_bad_fragment_witness :
  let m1 := mkManager
              (mkObject {[ lit "a" := new_Cookie (lit "a") (lit "1") ]} None)
              empty_object in
  parseIncomingCookies (lit "a=1") fresh_manager = (Return tt, m1)
  /\ returns (parseCookie (before 59 (lit " b=%; c=3"))) = false
  /\ parseIncomingCookies (lit "a=1; b=%; c=3") fresh_manager
     = (Throw URIError, m1).
Proof.
  intros m1.
  assert (H1 : parseIncomingCookies (lit "a=1") fresh_manager
               = (Return tt, m1)) by (vm_compute; reflexivity).
  assert (H2 : returns (parseCookie (before 59 (lit " b=%; c=3"))) = false)
    by (vm_compute; reflexivity).
  split; [exact H1|]. split; [exact H2|].
  exact (parseIncomingCookies_stops_at_bad_fragment
           (lit "a=1") (lit " b=%; c=3") fresh_manager m1 H1 H2).
Defined.

(** X16. The last fragment of a header wins: when a header parses and a
    further fragment parses to a cookie, the header with that fragment
    appended returns the manager of the header with the cookie assigned
    under its name, replacing any earlier cookie of that name, and
    [incoming] then returns that cookie. *)
Theorem later_fragment_overwrites (h f : jsstring) (c : Cookie)
    (m m1 : CookiesManager) :
  parseIncomingCookies h m = (Return tt, m1) ->
  Forall (fun x => x <> 59) f ->
  parseCookie f = Return (Some c) ->
  parseIncomingCookies (h ++ 59 :: f) m
  = (Return tt, with_incoming (assign (_name c) c (_incoming m1)) m1)
  /\ fst (incoming (_name c) (snd (parseIncomingCookies (h ++ 59 :: f) m)))
     = Return (Instance c).
Proof.
  rewrite !parseIncomingCookies_fragments. intros H1 Hf Hc.
  assert (Heq : forEach store_fragment (split 59 (h ++ 59 :: f)) m
                = (Return tt,
                   with_incoming (assign (_name c) c (_incoming m1)) m1)).
  { rewrite split_app, forEach_app. unfold bind at 1.
    rewrite H1. rewrite split_no_sep by assumption.
    cbn [forEach]. unfold bind at 1.
    unfold store_fragment at 1, bind, lift. rewrite Hc. reflexivity. }
  split; [exact Heq|].
  rewrite Heq. unfold incoming, read.
  cbn [fst snd with_incoming _incoming]. rewrite property_assign.
  reflexivity.
Qed.

Lemma later_fragment_overwrites_witness :
  let m1 := mkManager
              (mkObject {[ lit "a" := new_Cookie (lit "a") (lit "1");
                           lit "b" := new_Cookie (lit "b") (lit "2") ]} None)
              empty_object in
  parseIncomingCookies (lit "a=1; b=2") fresh_manager = (Return tt, m1)
  /\ Forall (fun x => x <> 59) (lit " a=3")
  /\ parseCookie (lit " a=3")
     = Return (Some (mkCookie (lit "a") (lit "3") (Int 0) (lit "/") (lit "")
                              false false true NONE))
  /\ fst (incoming (lit "a")
            (snd (parseIncomingCookies (lit "a=1; b=2; a=3") fresh_manager)))
     = Return (Instance (mkCookie (lit "a") (lit "3") (Int 0) (lit "/")
                                  (lit "") false false true NONE)).
Proof.
  intros m1.
  assert (H1 : parseIncomingCookies (lit "a=1; b=2") fresh_manager
               = (Return tt, m1)) by (vm_compute; reflexivity).
  assert (H2 : Forall (fun x => x <> 59) (lit " a=3"))
    by (repeat constructor; discriminate).
  assert (H3 : parseCookie (lit " a=3")
               = Return (Some (mkCookie (lit "a") (lit "3") (Int 0) (lit "/")
                                        (lit "") false false true NONE)))
    by (vm_compute; reflexivity).
  split; [exact H1|]. split; [exact H2|]. split; [exact H3|].
  exact (proj2 (later_fragment_overwrites (lit "a=1; b=2") (lit " a=3")
                  _ fresh_manager m1 H1 H2 H3)).
Defined.

Lemma store_fragment_blank f m :
  blank (name_part f) -> store_fragment f m = (Return tt, m).
Proof.
  intros Hb. unfold store_fragment, bind, lift.
  rewrite (parseCookie_blank f Hb). reflexivity.
Qed.

Lemma forEach_store_blank fragments m :
  Forall (fun f => blank (name_part f)) fragments ->
  forEach store_fragment fragments m = (Return tt, m).
Proof.
  induction 1 as [|f fragments Hf _ IH]; [reflexivity|].
  cbn [forEach]. unfold bind at 1.
  rewrite store_fragment_blank by assumption. exact IH.
Qed.

(** X17. A header in which every fragment has an empty or blank name (the
    empty header, [;], [ ; =v;;]) stores nothing and never throws, whatever
    follows the [=] of a fragment; and a request without cookie header, or
    with such a header, gives a manager without cookies. *)
Theorem nameless_header_stores_nothing (header : option jsstring)
    (m : CookiesManager) :
  Forall (fun f => blank (name_part f)) (split 59 (or_empty header)) ->
  parseIncomingCookies (or_empty header) m = (Return tt, m)
  /\ new_CookiesManager header = Return fresh_manager.
Proof.
  intros Hb. unfold new_CookiesManager.
  rewrite !parseIncomingCookies_fragments.
  rewrite !forEach_store_blank by assumption. split; reflexivity.
Qed.

Lemma nameless_header_stores_nothing_witness :
  Forall (fun f => blank (name_part f)) (split 59 (lit " ; =%;;  =v=w"))
  /\ Forall (fun f => blank (name_part f)) (split 59 (or_empty None))
  /\ new_CookiesManager (Some (lit " ; =%;;  =v=w")) = Return fresh_manager
  /\ new_CookiesManager None = Return fresh_manager.
Proof.
  assert (H1 : Forall (fun f => blank (name_part f))
                 (split 59 (or_empty (Some (lit " ; =%;;  =v=w")))))
    by (repeat (constructor;
                [repeat (constructor; [reflexivity|]); constructor|]);
        constructor).
  assert (H2 : Forall (fun f => blank (name_part f))
                 (split 59 (or_empty None)))
    by (repeat (constructor;
                [repeat (constructor; [reflexivity|]); constructor|]);
        constructor).
  split; [exact H1|]. split; [exact H2|]. split.
  - exact (proj2 (nameless_header_stores_nothing _ fresh_manager H1)).
  - exact (proj2 (nameless_header_stores_nothing _ fresh_manager H2)).
Defined.

(** ** The manager: cookies and their names *)












(** ** The manager: how assignments and deletions compose *)

Ltac object_cases :=
  unfold assign, remove in *; cbn [own prototype] in *;
  repeat (first [case_match | case_decide]; cbn [own prototype] in * );
  simplify_map_eq; try reflexivity; try congruence.

Lemma assign_assign k c1 c2 o : assign k c2 (assign k c1 o) = assign k c2 o.
Proof. object_cases. all: f_equal; apply insert_insert_eq. Qed.

Lemma assign_comm k1 k2 c1 c2 o :
  k1 <> k2 ->
  assign k2 c2 (assign k1 c1 o) = assign k1 c1 (assign k2 c2 o).
Proof.
  intros Hne. object_cases.
  all: f_equal; apply insert_insert_ne; congruence.
Qed.

Lemma remove_absent n o : own o !! n = None -> remove n o = o.
Proof.
  intros Hn. unfold remove. rewrite delete_id by assumption.
  destruct o; reflexivity.
Qed.

Lemma remove_assign_ne n k c o :
  k <> n -> remove n (assign k c o) = assign k c (remove n o).
Proof.
  intros Hne. object_cases.
  all: f_equal; apply delete_insert_ne; congruence.
Qed.

Lemma remove_assign k c o :
  k <> lit "__proto__" -> own o !! k = None -> remove k (assign k c o) = o.
Proof.
  intros Hp Hk. unfold assign, remove. rewrite Hk, decide_False by assumption.
  cbn [own prototype]. rewrite delete_insert_eq, delete_id by assumption.
  destruct o; reflexivity.
Qed.

(** X19. How [queue] and [unqueue] compose. Queueing a second cookie of the
    same name replaces the first; cookies of different names can be queued
    in either order; [unqueue] of a name under which the queue has no own
    property changes nothing and never throws; unqueueing twice is
    unqueueing once; and calls on different names commute. *)
Theorem queue_and_unqueue_compose (c1 c2 : Cookie) (n n' : jsstring)
    (m : CookiesManager) :
  (_name c1 = _name c2 ->
   snd (queue c2 (snd (queue c1 m))) = snd (queue c2 m))
  /\ (_name c1 <> _name c2 ->
      snd (queue c2 (snd (queue c1 m))) = snd (queue c1 (snd (queue c2 m))))
  /\ (own (_queue m) !! n = None -> unqueue n m = (Return tt, m))
  /\ snd (unqueue n (snd (unqueue n m))) = snd (unqueue n m)
  /\ snd (unqueue n (snd (unqueue n' m))) = snd (unqueue n' (snd (unqueue n m)))
  /\ (_name c1 <> n ->
      snd (unqueue n (snd (queue c1 m))) = snd (queue c1 (snd (unqueue n m)))).
Proof.
  unfold queue, unqueue, modify, with_queue. cbn [snd _queue _incoming].
  split; [|split; [|split; [|split; [|split]]]].
  - intros ->. rewrite assign_assign. reflexivity.
  - intros Hne. rewrite assign_comm by assumption. reflexivity.
  - intros Hn. rewrite remove_absent by assumption. destruct m; reflexivity.
  - unfold remove. cbn [own prototype]. rewrite delete_delete_eq.
    reflexivity.
  - unfold remove. cbn [own prototype]. do 2 f_equal. apply delete_delete.
  - intros Hne. rewrite remove_assign_ne by assumption. reflexivity.
Qed.

(** ** The manager: what a header leaves under a name *)

Lemma stored_store acc f k :
  stored (store acc f) k = overwrite k (stored acc k) f.
Proof.
  unfold store, overwrite. destruct (parseCookie f) as [[c|]|e];
    try reflexivity.
  apply stored_assign.
Qed.

Lemma stored_foldl_store fragments acc k :
  stored (foldl store acc fragments) k
  = foldl (overwrite k) (stored acc k) fragments.
Proof.
  revert acc. induction fragments as [|f fragments IH]; intros acc;
    [reflexivity|].
  cbn [foldl]. rewrite IH, stored_store. reflexivity.
Qed.

(** Whether [__proto__] is an own property never changes, and with one the
    prototype stays. *)
Lemma assign_keeps_shape k c o :
  (own (assign k c o) !! lit "__proto__" = None
   <-> own o !! lit "__proto__" = None)
  /\ (own o !! lit "__proto__" <> None ->
      prototype (assign k c o) = prototype o).
Proof.
  unfold assign.
  destruct (decide (k = lit "__proto__")) as [->|Hne].
  - destruct (own o !! lit "__proto__") as [c0|] eqn:Hk; cbn [own prototype].
    + rewrite lookup_insert_eq. split; [split; discriminate | reflexivity].
    + rewrite Hk. split; [reflexivity | congruence].
  - destruct (own o !! k); cbn [own prototype];
      rewrite lookup_insert_ne by assumption; split; reflexivity.
Qed.

Lemma foldl_store_keeps_shape fragments o :
  (own (foldl store o fragments) !! lit "__proto__" = None
   <-> own o !! lit "__proto__" = None)
  /\ (own o !! lit "__proto__" <> None ->
      prototype (foldl store o fragments) = prototype o).
Proof.
  revert o. induction fragments as [|f fragments IH]; intros o;
    [split; [reflexivity | reflexivity]|].
  cbn [foldl]. destruct (IH (store o f)) as [IH1 IH2].
  assert (Hs : (own (store o f) !! lit "__proto__" = None
                <-> own o !! lit "__proto__" = None)
               /\ (own o !! lit "__proto__" <> None ->
                   prototype (store o f) = prototype o)).
  { unfold store. destruct (parseCookie f) as [[c|]|e];
      try (split; [reflexivity | reflexivity]).
    apply assign_keeps_shape. }
  destruct Hs as [Hs1 Hs2]. split.
  - rewrite IH1. exact Hs1.
  - intros Hp. rewrite IH2; [apply Hs2, Hp|]. rewrite Hs1. exact Hp.
Qed.

(** Two objects that hold the same cookies under every name are equal, when
    they agree on whether [__proto__] is an own property and, if it is, on
    the prototype. *)
Lemma KeyValue_ext o1 o2 :
  (forall k, stored o1 k = stored o2 k) ->
  (own o1 !! lit "__proto__" = None <-> own o2 !! lit "__proto__" = None) ->
  (own o1 !! lit "__proto__" <> None -> prototype o1 = prototype o2) ->
  o1 = o2.
Proof.
  destruct o1 as [w1 p1], o2 as [w2 p2]. unfold stored. cbn [own prototype].
  intros Hs Hn Hp.
  assert (Hw : w1 = w2).
  { apply map_eq. intros k. specialize (Hs k).
    destruct (decide (k = lit "__proto__")) as [->|Hne].
    - destruct (w1 !! lit "__proto__") as [c1|] eqn:H1.
      + destruct (w2 !! lit "__proto__") as [c2|] eqn:H2; [exact Hs|].
        destruct Hn as [_ Hn]. discriminate (Hn eq_refl).
      + destruct Hn as [Hn _]. rewrite (Hn eq_refl). reflexivity.
    - destruct (w1 !! k), (w2 !! k); congruence. }
  subst w2. f_equal.
  destruct (w1 !! lit "__proto__") as [c1|] eqn:H1.
  - apply Hp. discriminate.
  - specialize (Hs (lit "__proto__")). rewrite H1 in Hs.
    rewrite decide_True in Hs by reflexivity. exact Hs.
Qed.

Lemma overwrite_settles k fragments :
  (forall o, foldl (overwrite k) o fragments = o)
  \/ (exists c, forall o, foldl (overwrite k) o fragments = Some c).
Proof.
  induction fragments as [|f fragments IH]; [left; reflexivity|].
  cbn [foldl]. unfold overwrite at 2 4.
  destruct (parseCookie f) as [[c|]|e]; try exact IH.
  case_decide; [|exact IH].
  destruct IH as [IH | [c' IH]]; right.
  - exists c. intros o. apply IH.
  - exists c'. intros o. apply IH.
Qed.

Lemma foldl_store_twice fragments acc :
  foldl store (foldl store acc fragments) fragments
  = foldl store acc fragments.
Proof.
  destruct (foldl_store_keeps_shape fragments acc) as [H1 H2].
  destruct (foldl_store_keeps_shape fragments (foldl store acc fragments))
    as [H3 H4].
  apply KeyValue_ext.
  - intros k. rewrite !stored_foldl_store.
    destruct (overwrite_settles k fragments) as [H | [c H]]; rewrite !H;
      reflexivity.
  - exact H3.
  - intros Hp. apply H4. rewrite H3 in Hp. exact Hp.
Qed.

Lemma forEach_returns_inv fragments m m1 :
  forEach store_fragment fragments m = (Return tt, m1) ->
  Forall (fun f => returns (parseCookie f) = true) fragments.
Proof.
  intros H. destruct (fragments_return_or_throw fragments) as [Hf|Hf];
    [assumption|].
  pose proof (forEach_throws fragments m Hf) as Ht. rewrite H in Ht.
  discriminate Ht.
Qed.

(** X20. Parsing a header a second time changes nothing: when
    [parseIncomingCookies] returns, calling it again with the same header
    returns and leaves the manager as the first call left it. The cookie it
    left under a name is the cookie of the last fragment of the header that
    parses to that name, and the cookie that was there before when there is
    no such fragment. *)
Theorem parsing_again_changes_nothing (h : jsstring) (k : jsstring)
    (m m1 : CookiesManager) :
  parseIncomingCookies h m = (Return tt, m1) ->
  parseIncomingCookies h m1 = (Return tt, m1)
  /\ stored (_incoming m1) k
     = foldl (overwrite k) (stored (_incoming m) k) (split 59 h).
Proof.
  rewrite !parseIncomingCookies_fragments.
  intros H. pose proof (forEach_returns_inv _ _ _ H) as Hf.
  rewrite forEach_returns in H by assumption. injection H as <-.
  rewrite forEach_returns by assumption. split.
  - cbn [with_incoming _incoming _queue]. rewrite foldl_store_twice.
    reflexivity.
  - cbn [with_incoming _incoming]. apply stored_foldl_store.
Qed.

Lemma parsing_again_changes_nothing_witness :
  let m1 := mkManager
              (mkObject {[ lit "a" := new_Cookie (lit "a") (lit "3");
                           lit "b" := new_Cookie (lit "b") (lit "2") ]}
                        (Some (new_Cookie (lit "__proto__") (lit "q"))))
              empty_object in
  parseIncomingCookies (lit "a=1; __proto__=p; b=2; a=3; __proto__=q")
                       fresh_manager = (Return tt, m1)
  /\ parseIncomingCookies (lit "a=1; __proto__=p; b=2; a=3; __proto__=q") m1
     = (Return tt, m1)
  /\ stored (_incoming m1) (lit "a") = Some (new_Cookie (lit "a") (lit "3")).
Proof.
  intros m1.
  assert (H : parseIncomingCookies
                (lit "a=1; __proto__=p; b=2; a=3; __proto__=q") fresh_manager
              = (Return tt, m1)) by (vm_compute; reflexivity).
  split; [exact H|].
  destruct (parsing_again_changes_nothing _ (lit "a") _ _ H) as [H1 H2].
  split; [exact H1|]. rewrite H2. vm_compute. reflexivity.
Defined.

(** X21. [unqueue] undoes [queue] when the name of the cookie is not
    [__proto__] and the queue has no own property of that name: the manager
    is again what it was. *)
Theorem queue_then_unqueue_restores (c : Cookie) (m : CookiesManager) :
  _name c <> lit "__proto__" ->
  own (_queue m) !! _name c = None ->
  snd (unqueue (_name c) (snd (queue c m))) = m.
Proof.
  intros Hp Hn. unfold queue, unqueue, modify, with_queue.
  cbn [snd _queue _incoming]. rewrite remove_assign by assumption.
  destruct m; reflexivity.
Qed.

Lemma queue_then_unqueue_restores_witness :
  let m := mkManager
             (mkObject {[ lit "k" := new_Cookie (lit "k") (lit "old") ]} None)
             (mkObject {[ lit "sid" := session_cookie ]} None) in
  _name app_cookie <> lit "__proto__"
  /\ own (_queue m) !! _name app_cookie = None
  /\ snd (unqueue (lit "k") (snd (queue app_cookie m))) = m.
Proof.
  intros m.
  assert (Hp : _name app_cookie <> lit "__proto__") by discriminate.
  assert (H : own (_queue m) !! _name app_cookie = None)
    by (vm_compute; reflexivity).
  split; [exact Hp|]. split; [exact H|].
  exact (queue_then_unqueue_restores app_cookie m Hp H).
Defined.

(** X22. [unqueue] concerns one name only and uncovers the incoming cookie.
    For a name under which the queue object inherits nothing: after
    [unqueue(name)], [hasQueued(name)] is false, [queued(name)] is [null]
    and [get(name, d)] returns what [incoming(name)] returns, or [d] when
    that is [null]. For every other name, [get], [queued] and [hasQueued]
    return what they returned before. *)
Theorem unqueue_uncovers_incoming (name : jsstring) (d : option Cookie)
    (m : CookiesManager) :
  inherited (_queue m) name = Undefined ->
  let m' := snd (unqueue name m) in
  fst (hasQueued name m') = Return false
  /\ fst (queued name m') = Return Null
  /\ fst (get name d m')
     = Return (coalesce (or_null (property (_incoming m) name)) (nullable d))
  /\ fst (get name d m')
     = obind (fst (incoming name m))
             (fun v => Return (coalesce v (nullable d)))
  /\ (forall other, other <> name ->
        fst (get other d m') = fst (get other d m)
        /\ fst (queued other m') = fst (queued other m)
        /\ fst (hasQueued other m') = fst (hasQueued other m)).
Proof.
  intros Hi. cbv zeta.
  assert (Hp : property (remove name (_queue m)) name = Undefined).
  { unfold property, remove. cbn [own]. rewrite lookup_delete_eq. exact Hi. }
  assert (Ho : forall other, other <> name ->
            property (remove name (_queue m)) other
            = property (_queue m) other).
  { intros other Hne. unfold property, remove, inherited.
    cbn [own prototype]. rewrite lookup_delete_ne by congruence.
    reflexivity. }
  unfold hasQueued, queued, incoming, unqueue, modify, read.
  cbn [fst snd obind]. rewrite !get_eq.
  cbn [fst with_queue _queue _incoming]. rewrite Hp.
  split; [reflexivity|]. split; [reflexivity|]. split; [reflexivity|].
  split; [reflexivity|].
  intros other Hne. rewrite !get_eq. cbn [fst with_queue _queue _incoming].
  rewrite (Ho other Hne). split; [reflexivity | split; reflexivity].
Qed.

Lemma unqueue_uncovers_incoming_witness :
  let m := mkManager
             (mkObject {[ lit "x" := new_Cookie (lit "x") (lit "old") ]} None)
             (mkObject {[ lit "x" := new_Cookie (lit "x") (lit "new") ]}
                       None) in
  inherited (_queue m) (lit "x") = Undefined
  /\ fst (get (lit "x") None m)
     = Return (Instance (new_Cookie (lit "x") (lit "new")))
  /\ fst (get (lit "x") None (snd (unqueue (lit "x") m)))
     = Return (Instance (new_Cookie (lit "x") (lit "old")))
  /\ fst (hasQueued (lit "x") (snd (unqueue (lit "x") m))) = Return false.
Proof.
  intros m.
  assert (Hi : inherited (_queue m) (lit "x") = Undefined)
    by (vm_compute; reflexivity).
  split; [exact Hi|]. split; [vm_compute; reflexivity|].
  destruct (unqueue_uncovers_incoming (lit "x") None m Hi)
    as (H1 & _ & H2 & _).
  split; [rewrite H2; vm_compute; reflexivity | exact H1].
Defined.

(** X23. What [get] returns, for every name: the value [queued] returns
    when that is not [null], otherwise the value [incoming] returns when
    that is not [null], otherwise the default; the manager is left as it
    was. For a name under which neither object inherits anything, that is
    the queued cookie when the queue holds one, otherwise the incoming
    cookie when there is one, otherwise the default; and after [queue(c)],
    [get] returns [c] for the name of [c], whatever [incoming] holds. *)
Theorem get_prefers_queue (name : jsstring) (defaultValue : option Cookie)
    (cookie : Cookie) (m : CookiesManager) :
  (exists q i,
     fst (queued name m) = Return q /\ fst (incoming name m) = Return i
     /\ get name defaultValue m
        = (Return (match q with
                   | Null => match i with
                             | Null => nullable defaultValue
                             | _ => i
                             end
                   | _ => q
                   end), m))
  /\ (inherited (_queue m) name = Undefined ->
      inherited (_incoming m) name = Undefined ->
      fst (get name defaultValue m)
      = Return (match stored (_queue m) name with
                | Some c => Instance c
                | None => match stored (_incoming m) name with
                          | Some c => Instance c
                          | None => nullable defaultValue
                          end
                end))
  /\ fst (get (_name cookie) defaultValue (snd (queue cookie m)))
     = Return (Instance cookie).
Proof.
  split; [|split].
  - exists (or_null (property (_queue m) name)),
           (or_null (property (_incoming m) name)).
    split; [reflexivity|]. split; [reflexivity|].
    rewrite get_eq. do 2 f_equal. unfold or_null.
    destruct (truthy_value (property (_queue m) name)) eqn:Hq.
    + destruct (property (_queue m) name); try discriminate; reflexivity.
    + cbn [is_null coalesce].
      destruct (truthy_value (property (_incoming m) name)) eqn:Hi;
        [|reflexivity].
      destruct (property (_incoming m) name); try discriminate; reflexivity.
  - intros Hq Hi. rewrite get_eq. cbn [fst].
    rewrite (property_plain _ _ Hq), (property_plain _ _ Hi).
    destruct (stored (_queue m) name); [reflexivity|].
    destruct (stored (_incoming m) name); reflexivity.
  - rewrite get_eq. unfold queue, modify.
    cbn [fst snd with_queue _queue]. rewrite property_assign. reflexivity.
Qed.

(** X24. [hasQueued(name)] is true exactly when the queue holds a cookie
    under [name]: as an own property, or for [__proto__] as its prototype.
    It is true for the name of [c] after [queue(c)]. After [unqueue(name)]
    it is false, except for [__proto__] when a cookie is the prototype of
    the queue, which [unqueue] does not remove. *)
Theorem hasQueued_iff_stored (name : jsstring) (cookie : Cookie)
    (m : CookiesManager) :
  hasQueued name m = (Return (bool_decide (is_Some (stored (_queue m) name))), m)
  /\ fst (hasQueued (_name cookie) (snd (queue cookie m))) = Return true
  /\ fst (hasQueued name (snd (unqueue name m)))
     = Return (bool_decide (name = lit "__proto__"
                            /\ is_Some (prototype (_queue m)))).
Proof.
  unfold hasQueued, queue, unqueue, read, modify.
  cbn [fst snd with_queue _queue].
  rewrite !instanceof_property, stored_assign, stored_remove.
  rewrite !decide_True by reflexivity.
  split; [reflexivity|]. split.
  - rewrite bool_decide_eq_true_2 by eauto. reflexivity.
  - f_equal. destruct (decide (name = lit "__proto__")) as [Hp|Hp].
    + apply bool_decide_ext. tauto.
    + rewrite !bool_decide_eq_false_2; [reflexivity | tauto |].
      intros [? [=]].
Qed.
